(** * Integram: webhook routing, event fan-out and the OAuth callback

    A shallow embedding of [handlers.go]: [serviceHookHandler],
    [Service.TriggerEventHandler] and [oAuthCallback].

    The handlers are written in a small state-and-trace monad [Proc]:
    the state is the request's [Context] object together with the
    outside world (store, Telegram, service plugins); the trace lists
    the observable effects in program order (log lines, store queries,
    file writes, plugin invocations, HTTP responses).

    The other functions of the file -- the middlewares, the handler of
    unmatched routes, [webPreviewHandler] and [oAuthInitRedirect] --
    are embedded after these, each with the effects it has. *)

From stdpp Require Import gmap strings list fin_maps pretty.

(** ** Go values *)

(** A non-nil Go [error].  [ErrorFlood] is the package-level sentinel
    the router compares against by identity; every other error is an
    [errorsNew] carrying its text. *)
Inductive error :=
  | ErrorFlood
  | errorsNew (msg : string).

(** An [error] interface value: [None] is [nil]. *)
Abbreviation goerr := (option error).

Definition isNil (e : goerr) : bool :=
  match e with None => true | Some _ => false end.

Definition isFlood (e : error) : bool :=
  match e with ErrorFlood => true | errorsNew _ => false end.

(** [bson.M] / [map[string]interface{}] used as a store query. *)
Inductive bsonValue :=
  | bsonString (s : string)
  | bsonInt (n : Z).

Abbreviation bsonM := (list (string * bsonValue)).

(** ** Data model *)

Record serviceHook := mkHook {
  Token : string;
  Services : list string;
  Chats : list Z
}.

(** The back pointers [ctx] and [data] of [User] and [Chat] are not
    fields here: which [Context] object a handler works on is made
    explicit by [invoke] below. *)
Record User := mkUser { User_ID : Z; UserName : string }.
Record Chat := mkChat { Chat_ID : Z }.

Record userProtected := mkProtected {
  OAuthToken : string;
  OAuthRefreshToken : string;
  OAuthExpireDate : option Z
}.

Record userData := mkUserData {
  ud_User : User;
  Protected : gmap string userProtected;
  Settings : gmap string string;
  Hooks : list serviceHook
}.

Record chatData := mkChatData {
  cd_Chat : Chat;
  cd_Hooks : list serviceHook
}.

Record Context := mkContext {
  ServiceName : string;
  ServiceBaseURL : string;
  CtxUser : User;
  CtxChat : Chat
}.

(** [&Context{db: db, gin: c}]: every other field has its zero value. *)
Definition newContext : Context :=
  mkContext "" "" (mkUser 0 "") (mkChat 0).

Definition withServiceName (n : string) (c : Context) : Context :=
  mkContext n (ServiceBaseURL c) (CtxUser c) (CtxChat c).
Definition withUser (u : User) (c : Context) : Context :=
  mkContext (ServiceName c) (ServiceBaseURL c) u (CtxChat c).
Definition withChat (ch : Chat) (c : Context) : Context :=
  mkContext (ServiceName c) (ServiceBaseURL c) (CtxUser c) ch.

Record WebhookContext := mkWctx { requestID : string; rawBody : string }.

(** The request as [serviceHookHandler] reads it: [c.Param("param")],
    [c.Param("service")], the body, and the [rndStr.Get(10)] draw. *)
Record HookRequest := mkHookRequest {
  req_param : string;
  req_service : string;
  req_body : string;
  req_rnd : string
}.

(** The request as [oAuthCallback] reads it: [c.Query("u")],
    [c.Query("state")], [c.Param("param")], [FormValue("code")]. *)
Record OAuthRequest := mkOAuthRequest {
  query_u : string;
  query_state : string;
  oa_param : string;
  form_code : string
}.

Record oAuthIDCache := mkAuthCache {
  UserID : Z;
  oa_Service : string;
  oa_BaseURL : string;
  RequestToken : string
}.

Record OAuthProvider := mkProvider { oap_BaseURL : string; oap_Service : string }.

Record oauth2Token := mkToken {
  AccessToken : string;
  RefreshToken : string;
  Expiry : Z
}.

Record Bot := mkBot { Username : string }.

(** ** Observable effects *)

Inductive Logger := StdLog | CtxLog | SvcLog.
Inductive Level := LError | LWarn.
Inductive Collection := Cusers | Cchats | Cusers_cache.

Inductive Event :=
  | Log (lg : Logger) (lvl : Level) (fields : list (string * string))
        (err : goerr) (msg : string)
  | Query (coll : Collection) (q : bsonM)
  | CloneSession
  | WriteFile (name : string) (data : string)
  | Webhook (service : string) (arg : Context) (res : goerr)
  | Triggered (service : string) (arg : Context) (res : goerr)
  | TokenExchange (code : string)
  | SaveProtected (arg : Context) (ps : userProtected) (res : goerr)
  | DoJob (service : string) (arg : Context)
  | Respond (status : Z) (body : string).

Definition isRespond (e : Event) : bool :=
  match e with Respond _ _ => true | _ => false end.
Definition isSaveProtected (e : Event) : bool :=
  match e with SaveProtected _ _ _ => true | _ => false end.
Definition isFloodCall (e : Event) : bool :=
  match e with Webhook _ _ (Some ErrorFlood) => true | _ => false end.

(** The (service, chat) target of a [WebhookHandler] invocation. *)
Definition targetOf (e : Event) : option (string * Z) :=
  match e with
  | Webhook n c _ => Some (n, Chat_ID (CtxChat c))
  | _ => None
  end.

(** The invocations of a trace, in order. *)
Definition targets (t : list Event) : list (string * Z) := omap targetOf t.

(** [fmt.Sprintf("./raw/%v_%d.json", token, now)]: the name of the
    diagnostic file, made of the token and the Unix time. *)
Definition rawFileName (token : string) (now : Z) : string :=
  "./raw/" +:+ token +:+ "_" +:+ pretty now +:+ ".json".

(** How a statement ends: it falls through with a value, the enclosing
    handler returns, or the Go runtime panics. *)
Inductive Flow (A : Type) :=
  | Next (a : A)
  | Return
  | Panic.
Arguments Next {A} a.
Arguments Return {A}.
Arguments Panic {A}.

Section Model.

Context {World : Type}.

(** ** Services and the environment *)

(** A plugin function receives a pointer to a [Context]; it returns its
    result, the pointee as it leaves it, and the world as it leaves it. *)
Definition Plugin (R : Type) : Type := Context → World → R * Context * World.

Record OAuth2Config := mkOAuth2 {
  AccessTokenReceiver2 :
    option (OAuthRequest → Plugin (string * option Z * string * goerr))
}.

Record OAuth1Config := mkOAuth1 {
  AccessTokenReceiver1 :
    option (OAuthRequest → string → Plugin (string * goerr))
}.

Record Service := mkService {
  Name : string;
  TokenHandler : option (WebhookContext → Plugin (bool * option bsonM * goerr));
  WebhookHandler : option (WebhookContext → Plugin goerr);
  EventHandler : option (string → Plugin goerr);
  DefaultOAuth1 : option OAuth1Config;
  DefaultOAuth2 : option OAuth2Config;
  OAuthSuccessful : option (Plugin goerr)
}.

(** What [handlers.go] calls but does not define: the service registry,
    the store, the clock, the OAuth client and the text of the flood
    sentinel. *)
Record Env := mkEnv {
  serviceByName : string → option Service;
  FloodText : string;
  Now : World → Z;
  FindUser : bsonM → World → userData * goerr;
  FindChat : bsonM → World → chatData * goerr;
  FindUsers : bsonM → World → list userData * goerr;
  FindChats : bsonM → World → list chatData * goerr;
  FindAuthCache : bsonM → World → oAuthIDCache * goerr;
  findOauthProviderByID : string → World → OAuthProvider * goerr;
  Exchange : string → Plugin (option oauth2Token * goerr);
  protectedSettings : Context → World → option userProtected * goerr;
  saveProtectedSettings : Context → userProtected → World → goerr * World;
  Service_Bot : Service → Bot
}.

Variable env : Env.

(** [err.Error()] on a non-nil error. *)
Definition Error (e : error) : string :=
  match e with
  | ErrorFlood => FloodText env
  | errorsNew msg => msg
  end.

(** ** The monad of handlers *)

Record Store := mkStore { ctx : Context; world : World }.

Definition Proc (A : Type) : Type := Store → Flow A * Store * list Event.

#[global] Instance Proc_ret : MRet Proc := λ A a s, (Next a, s, []).

#[global] Instance Proc_bind : MBind Proc := λ A B k m s,
  match m s with
  | (Next a, s1, t1) => let '(f, s2, t2) := k a s1 in (f, s2, t1 ++ t2)
  | (Return, s1, t1) => (Return, s1, t1)
  | (Panic, s1, t1) => (Panic, s1, t1)
  end.

Definition emit (e : Event) : Proc unit := λ s, (Next tt, s, [e]).
Definition stop {A} : Proc A := λ s, (Return, s, []).
Definition panic {A} : Proc A := λ s, (Panic, s, []).
Definition getCtx : Proc Context := λ s, (Next (ctx s), s, []).
Definition putCtx (c : Context) : Proc unit :=
  λ s, (Next tt, mkStore c (world s), []).
Definition modifyCtx (f : Context → Context) : Proc unit :=
  λ s, (Next tt, mkStore (f (ctx s)) (world s), []).
Definition readWorld {A} (f : World → A) : Proc A :=
  λ s, (Next (f (world s)), s, []).

(** A store lookup: the query is traced, the result is read off the world. *)
Definition lookup_in {A} (coll : Collection) (f : bsonM → World → A) (q : bsonM)
  : Proc A :=
  emit (Query coll q);; readWorld (f q).

(** [if err != nil { <logger>.WithFields(..).WithError(err).Error(msg) }] *)
Definition logIfErr (lg : Logger) (fields : list (string * string))
    (err : goerr) (msg : string) : Proc unit :=
  match err with
  | Some _ => emit (Log lg LError fields err msg)
  | None => mret tt
  end.

(** [f(&arg, ..)]: the plugin runs on the [Context] value [arg]; the
    caller gets the result and the pointee as the plugin left it. *)
Definition call {R} (f : Plugin R) (arg : Context) : Proc (R * Context) :=
  λ s, let '(r, c', w') := f arg (world s) in
       (Next (r, c'), mkStore (ctx s) w', []).

(** [s.WebhookHandler(&arg, wctx)], traced under the name the service
    was looked up by.  Calling a nil function value panics. *)
Definition invoke (name : string) (s : Service) (arg : Context)
    (wctx : WebhookContext) : Proc (goerr * Context) :=
  match WebhookHandler s with
  | None => panic
  | Some h =>
      '(err, c') ← call (h wctx) arg;
      emit (Webhook name arg err);;
      mret (err, c')
  end.


(** ** The Scoped Secret Filter (lines 366-386) *)

(** Modelled from the spec: [SliceContainsString] is defined outside
    [handlers.go]; it tells whether the service name is present in the
    list of names. *)
Fixpoint SliceContainsString (s : list string) (e : string) : bool :=
  match s with
  | [] => false
  | a :: rest => if String.eqb a e then true else SliceContainsString rest e
  end.

(** [for serviceName := range m { if !SliceContainsString(services,
    serviceName) { delete(m, serviceName) } }], visiting the keys in
    the order [keys]. *)
Definition rangeDelete {V} (services : list string) (keys : list string)
    (m : gmap string V) : gmap string V :=
  foldl (λ acc serviceName,
           if SliceContainsString services serviceName then acc
           else delete serviceName acc) m keys.

(** Go ranges over a map in an unspecified order; the order taken here
    is that of [map_to_list], and [rangeDelete_lookup] below shows that
    the order does not matter. *)
Definition scopeMap {V} (services : list string) (m : gmap string V)
  : gmap string V :=
  rangeDelete services (map_to_list m).*1 m.

(** The loop over [user.Hooks]: at the first hook carrying the token,
    [user.Hooks] is cut down to that hook, a single service becomes
    [ctx.ServiceName], both maps are scoped, and the loop breaks. *)
Fixpoint scopeUser (token : string) (hooks : list serviceHook)
    (user : userData) (c : Context) : userData * Context :=
  match hooks with
  | [] => (user, c)
  | hook :: rest =>
      if String.eqb (Token hook) token then
        (mkUserData (ud_User user)
                    (scopeMap (Services hook) (Protected user))
                    (scopeMap (Services hook) (Settings user))
                    [hook],
         match Services hook with
         | [only] => withServiceName only c
         | _ => c
         end)
      else scopeUser token rest user c
  end.

(** ** [serviceHookHandler] *)

Definition tokenField (token : string) : list (string * string) :=
  [("token", token)].

Definition hooksTokenQuery (token : string) : bsonM :=
  [("hooks.token", bsonString token)].

(** [token[0:1]]: slicing past the end of a string panics. *)
Definition slice01 (token : string) : Proc string :=
  match token with
  | EmptyString => panic
  | String a _ => mret (String a EmptyString)
  end.

(** [ioutil.WriteFile(fmt.Sprintf("./raw/%v_%d.json", token,
    time.Now().Unix()), x, 0644)] with [x] the request body. *)
Definition dumpRaw (token body : string) : Proc unit :=
  now ← readWorld (Now env);
  emit (WriteFile (rawFileName token now) body).

(** Lines 322-336: one invocation per chat found, each on a copy of
    [*ctx] that is dropped after the call. *)
Fixpoint autoChats (s : Service) (name token : string) (wctx : WebhookContext)
    (chats : list chatData) : Proc unit :=
  match chats with
  | [] => mret tt
  | chat :: rest =>
      c ← getCtx;
      let ctxCopy := withChat (cd_Chat chat) c in
      '(err, _) ← invoke name s ctxCopy wctx;
      match err with
      | Some e =>
          emit (Log CtxLog LError (tokenField token) err
                    "WebhookHandler returned error");;
          if isFlood e then emit (Respond 429 (Error e));; stop
          else autoChats s name token wctx rest
      | None => autoChats s name token wctx rest
      end
  end.

(** Lines 344-359: the same for users. *)
Fixpoint autoUsers (s : Service) (name token : string) (wctx : WebhookContext)
    (users : list userData) : Proc unit :=
  match users with
  | [] => mret tt
  | user :: rest =>
      c ← getCtx;
      let ctxCopy :=
        withChat (mkChat (User_ID (ud_User user))) (withUser (ud_User user) c) in
      '(err, _) ← invoke name s ctxCopy wctx;
      match err with
      | Some e =>
          emit (Log CtxLog LError (tokenField token) err
                    "WebhookHandler returned error");;
          if isFlood e then emit (Respond 429 (Error e));; stop
          else autoUsers s name token wctx rest
      | None => autoUsers s name token wctx rest
      end
  end.

(** Lines 293-360: auto detection. *)
Definition autoDetect (token service : string) (wctx : WebhookContext)
  : Proc unit :=
  match serviceByName env service with
  | None => stop
  | Some s =>
      modifyCtx (withServiceName (Name s));;
      match TokenHandler s with
      | None => stop
      | Some th =>
          c ← getCtx;
          '(queryChat, query, err, c') ← call (th wctx) c;
          putCtx c';;
          logIfErr StdLog (tokenField token) err "TokenHandler error";;
          match query with
          | None => stop
          | Some q =>
              if queryChat : bool then
                '(chats, err) ← lookup_in Cchats (FindChats env) q;
                logIfErr StdLog (tokenField token) err "FindChats error";;
                autoChats s service token wctx chats
              else
                '(users, err) ← lookup_in Cusers (FindUsers env) q;
                logIfErr StdLog (tokenField token) err "findUsers error";;
                autoUsers s service token wctx users
          end
      end
  end.

(** Lines 362-404: a token that starts with [u].  The result is the
    local variable [user] as it stands at line 404. *)
Definition userToken (token body : string) : Proc userData :=
  '(found, err) ← lookup_in Cusers (FindUser env) (hooksTokenQuery token);
  c ← getCtx;
  let '(user, c) := scopeUser token (Hooks found) found c in
  putCtx (withUser (ud_User user) c);;
  if isNil err && (0 <? User_ID (ud_User user))%Z then mret user
  else
    dumpRaw token body;;
    emit (Log StdLog LError (tokenField token) None "Unknown user token");;
    stop.

(** Lines 405-421: a token that starts with [c] or [h]. *)
Definition chatToken (token body : string) : Proc (list serviceHook) :=
  '(chat, err) ← lookup_in Cchats (FindChat env) (hooksTokenQuery token);
  if isNil err && negb (Chat_ID (cd_Chat chat) =? 0)%Z then
    modifyCtx (withChat (cd_Chat chat));;
    mret (cd_Hooks chat)
  else
    dumpRaw token body;;
    emit (Log StdLog LError (tokenField token) None "Unknown chat token");;
    stop.

(** Lines 293-425: the chain that selects the resolution mode and
    yields [hooks]. *)
Definition resolveHooks (token service body : string) (wctx : WebhookContext)
  : Proc (list serviceHook) :=
  if negb (String.eqb service "")
     && (String.eqb token "service" || String.eqb token "") then
    autoDetect token service wctx;;
    mret []
  else
    t ← slice01 token;
    if String.eqb t "u" then
      user ← userToken token body;
      mret (Hooks user)
    else if String.eqb t "c" || String.eqb t "h" then
      chatToken token body
    else
      emit (Respond 404 "");;
      stop.

(** Lines 439-453: the loop over [hook.Chats].  Every iteration
    overwrites [ctx.Chat] and hands the handler the request's own
    [ctx]; what the handler leaves in it stays. *)
Fixpoint chatLoop (s : Service) (name token : string) (wctx : WebhookContext)
    (chats : list Z) (isHandled : bool) : Proc bool :=
  match chats with
  | [] => mret isHandled
  | chatID :: rest =>
      modifyCtx (withChat (mkChat chatID));;
      c ← getCtx;
      '(err, c') ← invoke name s c wctx;
      putCtx c';;
      match err with
      | Some e =>
          emit (Log CtxLog LError (tokenField token) err
                    "WebhookHandler returned error");;
          if isFlood e then emit (Respond 429 (Error e));; stop
          else chatLoop s name token wctx rest isHandled
      | None => chatLoop s name token wctx rest true
      end
  end.

(** Lines 430-459: the loop over [hook.Services]; [chats] is
    [hook.Chats], which the loop may fill in once. *)
Fixpoint serviceLoop (token : string) (wctx : WebhookContext)
    (services : list string) (chats : list Z) (isHandled : bool) : Proc bool :=
  match services with
  | [] => mret isHandled
  | serviceName :: rest =>
      match serviceByName env serviceName with
      | Some s =>
          modifyCtx (withServiceName serviceName);;
          c ← getCtx;
          let chats :=
            if (length chats =? 0)%nat && negb (Chat_ID (CtxChat c) =? 0)%Z
            then [Chat_ID (CtxChat c)] else chats in
          isHandled ←
            (if (0 <? length chats)%nat then
               chatLoop s serviceName token wctx chats isHandled
             else
               emit (Log CtxLog LWarn (tokenField token) None
                         "No target chats for token");;
               mret isHandled);
          serviceLoop token wctx rest chats isHandled
      | None => serviceLoop token wctx rest chats isHandled
      end
  end.

(** Lines 429-464: the body run for the hook that carries the token. *)
Definition dispatchHook (token : string) (wctx : WebhookContext)
    (hook : serviceHook) : Proc unit :=
  isHandled ← serviceLoop token wctx (Services hook) (Chats hook) false;
  (if isHandled : bool then mret tt
   else emit (Log StdLog LWarn (tokenField token) None "Hook not handled"));;
  emit (Respond 200 "");;
  stop.

(** Lines 427-466: the loop over [hooks]. *)
Fixpoint hookLoop (token : string) (wctx : WebhookContext)
    (hooks : list serviceHook) : Proc unit :=
  match hooks with
  | [] => mret tt
  | hook :: rest =>
      if String.eqb (Token hook) token then dispatchHook token wctx hook
      else hookLoop token wctx rest
  end.

Definition serviceHookHandler (r : HookRequest) : Proc unit :=
  let token := req_param r in
  let service := req_service r in
  putCtx newContext;;
  (if negb (String.eqb service "") then modifyCtx (withServiceName service)
   else mret tt);;
  let wctx := mkWctx (req_rnd r) (req_body r) in
  hooks ← resolveHooks token service (req_body r) wctx;
  hookLoop token wctx hooks.

(** ** [Service.TriggerEventHandler] *)

(** [s.EventHandler(ctx, data)] on the function's own [ctx]. *)
Definition trigger (s : Service) (h : string → Plugin goerr) (data : string)
  : Proc unit :=
  c ← getCtx;
  '(err, c') ← call (h data) c;
  emit (Triggered (Name s) c err);;
  putCtx c';;
  logIfErr CtxLog [] err "EventHandler returned error".

Fixpoint eventChats (s : Service) (h : string → Plugin goerr) (data : string)
    (chats : list chatData) : Proc unit :=
  match chats with
  | [] => mret tt
  | chat :: rest =>
      modifyCtx (withChat (cd_Chat chat));;
      trigger s h data;;
      eventChats s h data rest
  end.

Fixpoint eventUsers (s : Service) (h : string → Plugin goerr) (data : string)
    (users : list userData) : Proc unit :=
  match users with
  | [] => mret tt
  | user :: rest =>
      modifyCtx (withUser (ud_User user));;
      modifyCtx (withChat (mkChat (User_ID (ud_User user))));;
      trigger s h data;;
      eventUsers s h data rest
  end.

Definition TriggerEventHandler (s : Service) (queryChat : bool)
    (bsonQuery : option bsonM) (data : string) : Proc goerr :=
  match EventHandler s with
  | None =>
      mret (Some (errorsNew ("EventHandler missed for " +:+ Name s +:+ " service")))
  | Some h =>
      match bsonQuery with
      | None => mret None
      | Some q =>
          emit CloneSession;;
          putCtx (withServiceName (Name s) newContext);;
          (if queryChat then
             '(chats, err) ← lookup_in Cchats (FindChats env) q;
             logIfErr SvcLog [] err "FindChats error";;
             eventChats s h data chats
           else
             '(users, err) ← lookup_in Cusers (FindUsers env) q;
             logIfErr SvcLog [] err "findUsers error";;
             eventUsers s h data users);;
          mret None
      end
  end.

(** ** [oAuthCallback] *)

(** Modelled from the spec: [Context.Service] is defined outside
    [handlers.go]; the callback resolves the Service named by the
    context in the registry.  The result may be nil. *)
Definition Context_Service : Proc (option Service) :=
  c ← getCtx;
  mret (serviceByName env (ServiceName c)).

(** Modelled from the spec: [User.Chat] is defined outside
    [handlers.go]; a positive chat id is the 1:1 conversation with
    that user. *)
Definition User_Chat (u : User) : Chat := mkChat (User_ID u).

(** Lines 567-593.  The result is the four variables [accessToken],
    [refreshToken], [expiresAt] and [err]; on entry [err] is nil, the
    provider lookup having succeeded. *)
Definition obtainToken (s : Service) (r : OAuthRequest) (val : oAuthIDCache)
  : Proc (string * string * option Z * goerr) :=
  match DefaultOAuth2 s with
  | Some o2 =>
      match AccessTokenReceiver2 o2 with
      | Some receiver =>
          c ← getCtx;
          '(accessToken, expiresAt, refreshToken, err, c') ← call (receiver r) c;
          putCtx c';;
          mret (accessToken, refreshToken, expiresAt, err)
      | None =>
          let code := form_code r in
          if String.eqb code "" then
            emit (Log CtxLog LError [] None "OAuth2 code is empty");;
            stop
          else
            c ← getCtx;
            '(otoken, err, c') ← call (Exchange env code) c;
            emit (TokenExchange code);;
            putCtx c';;
            match otoken with
            | Some t =>
                mret (AccessToken t, RefreshToken t, Some (Expiry t), err)
            | None => mret ("", "", None, err)
            end
      end
  | None =>
      match DefaultOAuth1 s with
      | Some o1 =>
          match AccessTokenReceiver1 o1 with
          | Some receiver =>
              c ← getCtx;
              '(accessToken, err, c') ← call (receiver r (RequestToken val)) c;
              putCtx c';;
              mret (accessToken, "", None, err)
          | None => panic
          end
      | None => mret ("", "", None, None)
      end
  end.

(** Lines 595-600.  [err.Error()] is evaluated before [c.String] is
    entered, and calling a method on a nil [error] panics. *)
Definition rejectEmptyToken (oauthProviderID : string) (err : goerr)
  : Proc unit :=
  emit (Log StdLog LError [("oauthID", oauthProviderID)] err
            "Can't verify OAuth token");;
  match err with
  | Some e => emit (Respond 403 (Error e));; stop
  | None => panic
  end.

(** Lines 602-624.  Writing through a nil [ps] panics. *)
Definition storeCredentials (s : Service) (accessToken refreshToken : string)
    (expiresAt : option Z) : Proc unit :=
  c ← getCtx;
  '(ps, err) ← readWorld (protectedSettings env c);
  logIfErr CtxLog [] err "oAuthCallback: can't get User.protectedSettings() ";;
  match ps with
  | None => panic
  | Some ps =>
      let ps :=
        mkProtected accessToken
          (if String.eqb refreshToken "" then OAuthRefreshToken ps
           else refreshToken)
          (match expiresAt with
           | Some t => Some t
           | None => OAuthExpireDate ps
           end) in
      err ← (λ st, let '(err, w') := saveProtectedSettings env c ps (world st) in
                   (Next err, mkStore (ctx st) w', [SaveProtected c ps err]));
      logIfErr CtxLog [] err "oAuthCallback: can't saveProtectedSettings";;
      match OAuthSuccessful s with
      | Some _ => emit (DoJob (Name s) c)
      | None => mret tt
      end;;
      emit (Respond 302 ("https://telegram.me/" +:+ Username (Service_Bot env s)))
  end.

(** Lines 528-625.  A nil [s] makes the field access [s.DefaultOAuth2]
    of line 571 panic. *)
Definition oAuthCallback (r : OAuthRequest) : Proc unit :=
  let authTempID :=
    if String.eqb (query_u r) "" then query_state r else query_u r in
  '(val, err) ← lookup_in Cusers_cache (FindAuthCache env)
                  [("key", bsonString ("auth_" +:+ authTempID))];
  if negb (isNil err && (0 <? UserID val)%Z) then
    emit (Log StdLog LError (tokenField authTempID) None "Unknown auth token");;
    emit (Respond 403 "");;
    stop
  else
    let oauthProviderID := oa_param r in
    '(oap, err) ← readWorld (findOauthProviderByID env oauthProviderID);
    match err with
    | Some _ =>
        emit (Log StdLog LError [("OauthProviderID", oauthProviderID)] err
                  "Can't get OauthProvider");;
        emit (Respond 500 "Error occured");;
        stop
    | None =>
        putCtx (mkContext (oap_Service oap) (oap_BaseURL oap)
                          (mkUser 0 "") (mkChat 0));;
        '(found, _) ← lookup_in Cusers (FindUser env)
                        [("_id", bsonInt (UserID val))];
        s ← Context_Service;
        modifyCtx (withUser (ud_User found));;
        modifyCtx (λ c, withChat (User_Chat (CtxUser c)) c);;
        match s with
        | None => panic
        | Some s =>
            '(accessToken, refreshToken, expiresAt, err) ← obtainToken s r val;
            if String.eqb accessToken "" then
              rejectEmptyToken oauthProviderID err
            else storeCredentials s accessToken refreshToken expiresAt
        end
    end.

End Model.

Arguments userToken : simpl never.
Arguments chatToken : simpl never.
Arguments autoDetect : simpl never.
Arguments dispatchHook : simpl never.
Arguments resolveHooks : simpl never.
Arguments obtainToken : simpl never.
Arguments storeCredentials : simpl never.
Arguments rejectEmptyToken : simpl never.

(** ** Reading the fan-out off a hook, in the words of the specification *)

(** The target chat set: [Hook.Chats] if non-empty, else the single
    chat already resolved from the token lookup (if there is one). *)
Definition targetChats (chats : list Z) (resolved : Z) : list Z :=
  match chats with
  | [] => if (resolved =? 0)%Z then [] else [resolved]
  | _ => chats
  end.

(** The fan-out order: services in stored order, and for each service
    that the registry knows, the chats in stored order. *)
Fixpoint fanOut {World} (env : @Env World) (services : list string)
    (chats : list Z) : list (string * Z) :=
  match services with
  | [] => []
  | n :: rest =>
      match serviceByName env n with
      | Some _ => (pair n <$> chats) ++ fanOut env rest chats
      | None => fanOut env rest chats
      end
  end.

(** The log line written for a handler error. *)
Definition handlerErrorLog (token : string) (e : error) : Event :=
  Log CtxLog LError (tokenField token) (Some e) "WebhookHandler returned error".

Definition isSuccess (e : Event) : bool :=
  match e with Webhook _ _ None => true | _ => false end.

(** The handler invocations of a trace, with the [Context] each one
    was handed. *)
Definition callOf (e : Event) : option (string * Context) :=
  match e with
  | Webhook n a _ => Some (n, a)
  | _ => None
  end.

Definition calls (t : list Event) : list (string * Context) := omap callOf t.

(** ** The shape of a fan-out trace *)

(** How a fan-out loop ends: it ran over every target (with the value of
    [isHandled]), it answered 429 and returned, or it panicked. *)
Inductive Outcome :=
  | Completed (isHandled : bool)
  | Stopped
  | Panicked.

Definition outcomeOf {A} (handled : A → bool) (f : Flow A) : Outcome :=
  match f with
  | Next a => Completed (handled a)
  | Return => Stopped
  | Panic => Panicked
  end.

(** The traces one loop of invocations can leave.  [aimed x a] relates a
    target [x] to the [Context] handed to the handler for it. *)
Inductive FanRun {X} (aimed : X → Context → Prop) (floodText token name : string)
  : list X → bool → Outcome → list Event → Prop :=
  | FanRun_nil h :
      FanRun aimed floodText token name [] h (Completed h) []
  | FanRun_ok x xs h a o t :
      aimed x a →
      FanRun aimed floodText token name xs true o t →
      FanRun aimed floodText token name (x :: xs) h o (Webhook name a None :: t)
  | FanRun_err x xs h a msg o t :
      aimed x a →
      FanRun aimed floodText token name xs h o t →
      FanRun aimed floodText token name (x :: xs) h o
        (Webhook name a (Some (errorsNew msg))
           :: handlerErrorLog token (errorsNew msg) :: t)
  | FanRun_flood x xs h a :
      aimed x a →
      FanRun aimed floodText token name (x :: xs) h Stopped
        [Webhook name a (Some ErrorFlood);
         handlerErrorLog token ErrorFlood;
         Respond 429 floodText]
  | FanRun_panic x xs h :
      FanRun aimed floodText token name (x :: xs) h Panicked [].

(** The handler for chat [x] is handed a context whose chat is [x]. *)
Definition aimedAt (x : Z) (a : Context) : Prop := Chat_ID (CtxChat a) = x.

Definition noTargetLog (token : string) : Event :=
  Log CtxLog LWarn (tokenField token) None "No target chats for token".

Definition notHandledLog (token : string) : Event :=
  Log StdLog LWarn (tokenField token) None "Hook not handled".

(** The traces the loop over [hook.Services] can leave, [chats] being
    the target chat set. *)
Inductive ServiceRun {World} (env : @Env World) (token : string)
    (chats : list Z) : list string → bool → Outcome → list Event → Prop :=
  | ServiceRun_nil h :
      ServiceRun env token chats [] h (Completed h) []
  | ServiceRun_unknown n rest h o t :
      serviceByName env n = None →
      ServiceRun env token chats rest h o t →
      ServiceRun env token chats (n :: rest) h o t
  | ServiceRun_notarget n rest h o t :
      is_Some (serviceByName env n) →
      chats = [] →
      ServiceRun env token chats rest h o t →
      ServiceRun env token chats (n :: rest) h o (noTargetLog token :: t)
  | ServiceRun_next n rest h h1 t1 o t :
      is_Some (serviceByName env n) →
      chats ≠ [] →
      FanRun aimedAt (FloodText env) token n chats h (Completed h1) t1 →
      ServiceRun env token chats rest h1 o t →
      ServiceRun env token chats (n :: rest) h o (t1 ++ t)
  | ServiceRun_stop n rest h o t1 :
      is_Some (serviceByName env n) →
      chats ≠ [] →
      FanRun aimedAt (FloodText env) token n chats h o t1 →
      (∀ h1, o ≠ Completed h1) →
      ServiceRun env token chats (n :: rest) h o t1.


(** No invocation of the trace returned the flood sentinel. *)
Definition quiet (t : list Event) : Prop :=
  Forall (λ e, isFloodCall e = false) t.

(** The state in which the token is resolved: a fresh [Context] that
    carries the service parameter, if there is one (lines 272-279). *)
Definition entryStore {World} (r : HookRequest) (st : @Store World)
  : @Store World :=
  mkStore (if negb (req_service r =? "")%string
           then withServiceName (req_service r) newContext
           else newContext) (world st).

(** A token lookup that fails: no owning User with id > 0 for a token
    that starts with [u], no owning Chat with a non-zero id for a token
    that starts with [c] or [h].  The indices are the collection that
    is searched and the error that is logged. *)
Inductive LookupFailure {World} (env : @Env World) (token : string) (w : World)
  : Collection → string → Prop :=
  | UserLookupFails rest found err :
      token = "u" +:+ rest →
      FindUser env (hooksTokenQuery token) w = (found, err) →
      ¬ (err = None ∧ (0 < User_ID (ud_User found))%Z) →
      LookupFailure env token w Cusers "Unknown user token"
  | ChatLookupFails rest chat err :
      token = "c" +:+ rest ∨ token = "h" +:+ rest →
      FindChat env (hooksTokenQuery token) w = (chat, err) →
      ¬ (err = None ∧ Chat_ID (cd_Chat chat) ≠ 0%Z) →
      LookupFailure env token w Cchats "Unknown chat token".


(** The log line written when the credentials cannot be saved. *)
Definition saveFailureLog (e : error) : Event :=
  Log CtxLog LError [] (Some e) "oAuthCallback: can't saveProtectedSettings".

(** Nothing in the trace saves protected settings. *)
Definition unsaved (t : list Event) : Prop :=
  Forall (λ e, isSaveProtected e = false) t.

(** ** Sample deployments *)

(** Handlers that leave the context alone and return nil, the flood
    sentinel, or another error. *)
Definition okHandler : WebhookContext → @Plugin unit goerr :=
  λ _ c w, (None, c, w).
Definition floodHandler : WebhookContext → @Plugin unit goerr :=
  λ _ c w, (Some ErrorFlood, c, w).
Definition failHandler : WebhookContext → @Plugin unit goerr :=
  λ _ c w, (Some (errorsNew "boom"), c, w).

(** A handler that returns nil after writing to the [Context] it was
    handed: it loads another user into it and sets the service URL. *)
Definition writingHandler : WebhookContext → @Plugin unit goerr :=
  λ _ c w,
    (None,
     mkContext (ServiceName c) "https://selfhosted.example" (mkUser 7 "eve")
               (CtxChat c),
     w).

Definition sampleService (n : string)
    (h : WebhookContext → @Plugin unit goerr) : @Service unit :=
  mkService n None (Some h) None None None None.

(** A registry given as an association list. *)
Fixpoint sampleRegistry (l : list (string * @Service unit)) (n : string)
  : option (@Service unit) :=
  match l with
  | [] => None
  | (k, s) :: rest => if String.eqb k n then Some s else sampleRegistry rest n
  end.

Definition sampleEnv (registry : string → option (@Service unit))
    (user : userData) (chat : chatData) (saved : goerr) : @Env unit :=
  mkEnv registry "Too many messages" (λ _, 1477958400%Z)
        (λ _ _, (user, None)) (λ _ _, (chat, None))
        (λ _ _, ([user], None)) (λ _ _, ([chat], None))
        (λ _ _, (mkAuthCache (User_ID (ud_User user)) "trello" "" "", None))
        (λ _ _, (mkProvider "" "trello", None))
        (λ _ c w, (None, Some (errorsNew "exchange failed"), c, w))
        (λ _ _, (Some (mkProtected "" "" None), None))
        (λ _ _ w, (saved, w))
        (λ _, mkBot "integram_bot").

Definition sampleHook : serviceHook := mkHook "utok" ["a"; "b"] [10; 20]%Z.

Definition sampleUser : userData :=
  mkUserData (mkUser 42 "bob")
    (<["a" := mkProtected "X" "" None]>
       (<["gmail" := mkProtected "Y" "" None]> ∅))
    (<["a" := "board=1"]> (<["gmail" := "label=2"]> ∅))
    [mkHook "uold" ["gmail"] []; sampleHook].

Definition nobody : userData := mkUserData (mkUser 0 "") ∅ ∅ [].
Definition nowhere : chatData := mkChatData (mkChat 0) [].

Definition sampleChat : chatData :=
  mkChatData (mkChat (-100)) [mkHook "ctok" ["a"; "b"] []].

Definition sampleStore : @Store unit := mkStore newContext tt.

Definition registryOf (ha hb : WebhookContext → @Plugin unit goerr)
  : string → option (@Service unit) :=
  sampleRegistry [("a", sampleService "a" ha); ("b", sampleService "b" hb)].

(** A service whose OAuth2 [AccessTokenReceiver] reports the given
    access token and error, with or without an [OAuthSuccessful] job. *)
Definition oauthService (accessToken : string) (err : goerr) (job : bool)
  : @Service unit :=
  mkService "trello" None None None None
    (Some (mkOAuth2 (Some (λ _ c w, (accessToken, None, "", err, c, w)))))
    (if job then Some (λ c w, (None, c, w)) else None).

Definition oauthRegistry (accessToken : string) (err : goerr) (job : bool)
  : string → option (@Service unit) :=
  sampleRegistry [("trello", oauthService accessToken err job)].

Definition sampleCallback : OAuthRequest :=
  mkOAuthRequest "" "tmp123" "prov1" "".

Definition sampleRequest : HookRequest := mkHookRequest "utok" "" "{}" "rnd".
Definition sampleWctx : WebhookContext := mkWctx "rnd" "{}".
(** A service that only handles internal events. *)
Definition eventService : @Service unit :=
  mkService "gmail" None None (Some (λ _ c w, (None, c, w))) None None None.

(** ** Further vocabulary for traces *)

(** A response is the last event of the trace, it ends the handler, and
    its status is one of [codes]. *)
Definition AnswersLast {A} (codes : list Z) (f : Flow A) (t : list Event) : Prop :=
  ∀ i s b, t !! i = Some (Respond s b) →
    f = Return ∧ S i = length t ∧ s ∈ codes.

(** No response is written. *)
Definition silent (t : list Event) : Prop :=
  Forall (λ e, isRespond e = false) t.

(** Neither a response nor a save of protected settings. *)
Definition plain (t : list Event) : Prop :=
  Forall (λ e, isRespond e = false ∧ isSaveProtected e = false) t.

(** A token lookup that succeeds: the collection searched and the
    hooks of the record found. *)
Inductive LookupFound {World} (env : @Env World) (token : string) (w : World)
  : Collection → list serviceHook → Prop :=
  | UserFound rest found :
      token = "u" +:+ rest →
      FindUser env (hooksTokenQuery token) w = (found, None) →
      (0 < User_ID (ud_User found))%Z →
      LookupFound env token w Cusers (Hooks found)
  | ChatFound rest chat :
      token = "c" +:+ rest ∨ token = "h" +:+ rest →
      FindChat env (hooksTokenQuery token) w = (chat, None) →
      Chat_ID (cd_Chat chat) ≠ 0%Z →
      LookupFound env token w Cchats (cd_Hooks chat).

(** The warnings of a hook without target chats: one for each of its
    services that the registry knows. *)
Fixpoint noTargetLogs {World} (env : @Env World) (token : string)
    (services : list string) : list Event :=
  match services with
  | [] => []
  | n :: rest =>
      match serviceByName env n with
      | Some _ => noTargetLog token :: noTargetLogs env token rest
      | None => noTargetLogs env token rest
      end
  end.

(** The log line written for a [TokenHandler] error. *)
Definition tokenHandlerLog (token : string) (err : goerr) : list Event :=
  match err with
  | Some _ => [Log StdLog LError (tokenField token) err "TokenHandler error"]
  | None => []
  end.

(** Auto-detect mode (line 293): a service parameter, and a token that
    is empty or the word [service]. *)
Definition autoMode (r : HookRequest) : Prop :=
  req_service r ≠ "" ∧ (req_param r = "service" ∨ req_param r = "").

(** The ways auto-detect mode ends without a lookup: the service is not
    registered, it has no [TokenHandler], or its [TokenHandler] yields
    no query.  The index is the trace left. *)
Inductive NoAction {World} (env : @Env World) (r : HookRequest) (w : World)
  : list Event → Prop :=
  | UnknownService :
      serviceByName env (req_service r) = None →
      NoAction env r w []
  | NoTokenHandler s :
      serviceByName env (req_service r) = Some s →
      TokenHandler s = None →
      NoAction env r w []
  | NoQuery s th queryChat err c' w' :
      serviceByName env (req_service r) = Some s →
      TokenHandler s = Some th →
      th (mkWctx (req_rnd r) (req_body r))
         (withServiceName (Name s) (withServiceName (req_service r) newContext)) w
        = (queryChat, None, err, c', w') →
      NoAction env r w (tokenHandlerLog (req_param r) err).

(** What the [TokenHandler] of an auto-detect request returns when it
    yields a query: the collection to search, the query, its error, and
    the context and the world as it leaves them. *)
Definition tokenHandled {World} (env : @Env World) (r : HookRequest) (w : World)
    (s : Service) (queryChat : bool) (q : bsonM) (err : goerr)
    (c' : Context) (w' : World) : Prop :=
  ∃ th, serviceByName env (req_service r) = Some s
        ∧ TokenHandler s = Some th
        ∧ th (mkWctx (req_rnd r) (req_body r))
             (withServiceName (Name s)
                (withServiceName (req_service r) newContext)) w
          = (queryChat, Some q, err, c', w').

(** The [EventHandler] invocations of a trace, with the [Context] each
    one was handed. *)
Definition triggerOf (e : Event) : option (string * Context) :=
  match e with
  | Triggered n a _ => Some (n, a)
  | _ => None
  end.

Definition triggers (t : list Event) : list (string * Context) := omap triggerOf t.

(** The key under which the callback looks its correlation record up
    (lines 531-538). *)
Definition authKey (r : OAuthRequest) : bsonM :=
  [("key", bsonString ("auth_" +:+
      (if (query_u r =? "")%string then query_state r else query_u r)))].

(** How a run of [oAuthCallback] can end: it refuses with 403 or 500, it
    returns without a response, it panics, or it saves the credentials
    and redirects to the bot. *)
Inductive CallbackRun {World} (env : @Env World)
  : Flow unit → list Event → Prop :=
  | Refused pre s b :
      plain pre → (s = 403 ∨ s = 500)%Z →
      CallbackRun env Return (pre ++ [Respond s b])
  | Dropped t :
      plain t → CallbackRun env Return t
  | Faulted t :
      plain t → CallbackRun env Panic t
  | Stored pre c ps res mid sv :
      plain pre → plain mid → OAuthToken ps ≠ "" →
      CallbackRun env (Next tt)
        (pre ++ SaveProtected c ps res :: mid
             ++ [Respond 302 ("https://telegram.me/" +:+ Username (Service_Bot env sv))]).

(** The state of the callback at line 566: the provider's service and
    base URL, the user found and the user's own chat. *)
Definition callbackStore {World} (env : @Env World) (r : OAuthRequest)
    (st : @Store World) : @Store World :=
  let val := (FindAuthCache env (authKey r) (world st)).1 in
  let oap := (findOauthProviderByID env (oa_param r) (world st)).1 in
  let found := (FindUser env [("_id", bsonInt (UserID val))] (world st)).1 in
  mkStore (mkContext (oap_Service oap) (oap_BaseURL oap) (ud_User found)
                     (User_Chat (ud_User found)))
          (world st).

(** The callback gets as far as line 566: the correlation record and
    the provider are found, and the provider's service is registered. *)
Definition callbackReady {World} (env : @Env World) (r : OAuthRequest)
    (st : @Store World) (s : Service) : Prop :=
  (FindAuthCache env (authKey r) (world st)).2 = None
  ∧ (0 < UserID (FindAuthCache env (authKey r) (world st)).1)%Z
  ∧ (findOauthProviderByID env (oa_param r) (world st)).2 = None
  ∧ serviceByName env
      (oap_Service (findOauthProviderByID env (oa_param r) (world st)).1)
    = Some s.

(** ** Further sample deployments *)

(** A registry that knows the service of the chatless hook [uold]. *)
Definition gmailRegistry : string → option (@Service unit) :=
  sampleRegistry [("gmail", sampleService "gmail" okHandler)].

(** A service for auto-detect mode: its [TokenHandler] names the chats
    to search, or yields no query. *)
Definition detectService (query : option bsonM)
    (h : WebhookContext → @Plugin unit goerr) : @Service unit :=
  mkService "github" (Some (λ _ c w, (true, query, None, c, w))) (Some h)
            None None None None.

Definition detectRegistry (query : option bsonM)
    (h : WebhookContext → @Plugin unit goerr) : string → option (@Service unit) :=
  sampleRegistry [("github", detectService query h)].

Definition detectRequest : HookRequest := mkHookRequest "service" "github" "{}" "rnd".

(** A service on the default OAuth2 path, and one on the OAuth1 path. *)
Definition codeRegistry : string → option (@Service unit) :=
  sampleRegistry
    [("trello", mkService "trello" None None None None (Some (mkOAuth2 None)) None)].

Definition oauth1Registry : string → option (@Service unit) :=
  sampleRegistry
    [("trello",
      mkService "trello" None None None
        (Some (mkOAuth1 (Some (λ _ _ c w, ("tok1", None, c, w))))) None None)].

(** ** The middlewares and the routes of [Run] *)

(** What the middlewares read off the request. *)
Record ginRequest := mkGinRequest {
  gin_Path : string;
  gin_ClientIP : string;
  gin_Method : string;
  gin_UserAgent : string
}.

(** [log.Fields{"path": .., "ip": .., "method": .., "ua": .., "code": ..}] *)
Definition requestFields (req : ginRequest) (code : Z) : list (string * string) :=
  [("path", gin_Path req); ("ip", gin_ClientIP req);
   ("method", gin_Method req); ("ua", gin_UserAgent req);
   ("code", pretty code)].

Definition oops : string := "Oops. Something not good.".

Definition notWorking : string :=
  "Hi here! This link isn't working in a browser. Please follow the instructions in the chat".

(** The responses of a trace, in order. *)
Definition responseOf (e : Event) : option (Z * string) :=
  match e with
  | Respond s b => Some (s, b)
  | _ => None
  end.

Definition responses (t : list Event) : list (Z * string) := omap responseOf t.

Section Middleware.
Context {World : Type}.

(** [c.Next()]: the rest of the chain runs as a function call.  Whether
    it falls off its end or returns, the caller goes on; a panic
    unwinds through the caller. *)
Definition callNext (next : @Proc World unit) : @Proc World unit :=
  λ st, match next st with
        | (Return, st', t) => (Next tt, st', t)
        | r => r
        end.

(** Lines 49-56.  Closing the session leaves no event, as in
    [TriggerEventHandler]. *)
Definition cloneMiddleware (next : @Proc World unit) : @Proc World unit :=
  emit CloneSession;;
  callNext next.

(** Lines 58-70.  [statusCode] is what [c.Writer.Status()] returns on
    entry and [errors] the text of [c.Errors.ByType(..).String()]; both
    are read before the rest of the chain runs. *)
Definition ginLogger (req : ginRequest) (statusCode : Z) (errors : string)
    (next : @Proc World unit) : @Proc World unit :=
  (if (statusCode <? 200)%Z || (299 <? statusCode)%Z && negb (statusCode =? 404)%Z
   then emit (Log StdLog LError (requestFields req statusCode) None errors)
   else mret tt);;
  callNext next.

(** The log line of a recovered panic; [rendered] is the text of the
    recovered value and of the stack. *)
Definition panicLog (req : ginRequest) (rendered : string) : Event :=
  Log StdLog LError (requestFields req 500) None ("Panic recovery -> " +:+ rendered).

(** Lines 71-86: the deferred function recovers a panic of the rest of
    the chain, logs it and answers 500; the middleware then returns
    normally. *)
Definition ginRecovery (req : ginRequest) (rendered : string)
    (next : @Proc World unit) : @Proc World unit :=
  λ st, match callNext next st with
        | (Panic, st', t) =>
            (Next tt, st', t ++ [panicLog req rendered; Respond 500 oops])
        | r => r
        end.

(** Lines 122-124 and 132-149: a route handler runs inside the three
    middlewares, in the order they were registered. *)
Definition served (req : ginRequest) (statusCode : Z) (errors rendered : string)
    (handler : @Proc World unit) : @Proc World unit :=
  cloneMiddleware (ginRecovery req rendered (ginLogger req statusCode errors handler)).

(** [s[lo:hi]]: slicing out of range panics. *)
Definition goSlice (s : string) (lo hi : nat) : @Proc World string :=
  if (lo <=? hi) && (hi <=? String.length s)
  then mret (String.substring lo (hi - lo) s)
  else panic.

(** [c.Request.RequestURI[1:2] == x] *)
Definition secondIs (uri x : string) : @Proc World bool :=
  s ← goSlice uri 1 2;
  mret (s =? x)%string.

(** Lines 139-144: the handler of unmatched routes.  [&&] and [||]
    evaluate their right operand only when needed. *)
Definition noRoute (uri : string) : @Proc World unit :=
  if 10 <? String.length uri then
    c ← secondIs uri "c";
    cu ← (if c : bool then mret true else secondIs uri "u");
    cuh ← (if cu : bool then mret true else secondIs uri "h");
    if cuh : bool then emit (Respond 404 notWorking) else mret tt
  else mret tt.

End Middleware.

(** ** [webPreviewHandler] *)

(** The fields of a stored preview that the handler reads. *)
Record webPreview := mkPreview {
  wp_Token : string;
  wp_Title : string;
  wp_Headline : string;
  wp_Text : string;
  wp_ImageURL : string;
  wp_URL : string
}.

(** [gin.H{"title": .., "headline": .., "text": .., "imageURL": ..}] *)
Record previewPage := mkPage {
  page_title : string;
  page_headline : string;
  page_text : string;
  page_imageURL : string
}.

(** The effects of [webPreviewHandler]: the lookup, the abort, the
    counter update, the redirect, the debug line and the page. *)
Inductive PreviewEvent :=
  | FindPreview (id : string)
  | AbortWithError (status : Z) (msg : string)
  | IncRedirects (id : string)
  | Redirect (status : Z) (location : string)
  | DebugWP (p : previewPage)
  | RenderPreview (status : Z) (template : string) (p : previewPage).

Definition isCounted (e : PreviewEvent) : bool :=
  match e with IncRedirects _ | Redirect _ _ => true | _ => false end.

Definition isRendered (e : PreviewEvent) : bool :=
  match e with RenderPreview _ _ _ => true | _ => false end.

(** [strings.Contains(s, substr)] *)
Fixpoint strings_Contains (s substr : string) : bool :=
  String.prefix substr s
  || match s with
     | EmptyString => false
     | String _ rest => strings_Contains rest substr
     end.

Definition fakeImageURL : string := "http://fakeurlaaaaaaa.com/fake/url".

(** Lines 168-192.  [find] is the [previews] collection: the record
    that [One(&wp)] leaves in [wp], and its error.  There is no
    [return] after the 404 of line 175. *)
Definition webPreviewHandler (find : string → webPreview * goerr)
    (param userAgent : string) : list PreviewEvent :=
  let '(wp, err) := find param in
  FindPreview param
    :: match err with
       | Some _ => [AbortWithError 404 "Not found"]
       | None => []
       end
    ++ if negb (strings_Contains userAgent "TelegramBot") then
         [IncRedirects (wp_Token wp); Redirect 301 (wp_URL wp)]
       else
         let imageURL :=
           if (wp_Text wp =? "")%string && (wp_ImageURL wp =? "")%string
           then fakeImageURL else wp_ImageURL wp in
         let p := mkPage (wp_Title wp) (wp_Headline wp) (wp_Text wp) imageURL in
         [DebugWP p; RenderPreview 200 "webpreview.tmpl" p].

(** ** [oAuthInitRedirect] *)

Record InitRequest := mkInitRequest {
  init_param : string;   (* c.Param("param") *)
  init_tz : string       (* c.Request.URL.Query().Get("tz") *)
}.

(** The effects of [oAuthInitRedirect]: those of the other handlers,
    the two store updates, the call to the OAuth1 provider, the page
    rendered and the line printed. *)
Inductive InitEvent :=
  | Core (e : Event)
  | UpdateTZ (userID : Z) (tz : string)
  | RequestTokenCall (c : Context) (callback : string)
  | StoreRequestToken (key : bsonM) (requestToken : string) (res : goerr)
  | RenderRedirect (status : Z) (template url : string)
  | Println (s : string).

Definition isAnswer (e : InitEvent) : bool :=
  match e with
  | Core (Respond _ _) | RenderRedirect _ _ _ => true
  | _ => false
  end.

Section Init.
Context {World : Type}.

(** What [oAuthInitRedirect] calls beyond [Env]: the URL parser, the
    package-level [BaseURL], the provider's internal id, the OAuth1
    client and the two store updates. *)
Record InitEnv := mkInitEnv {
  url_Parse : string → option string;
  BaseURL : string;
  internalID : Context → string;
  GetRequestTokenAndUrl :
    Context → string → World → string * string * goerr * World;
  updateTZ : Z → string → World → World;
  updateRequestToken : bsonM → string → World → goerr * World
}.

Variable env : @Env World.
Variable ienv : InitEnv.

Definition initKey (r : InitRequest) : bsonM :=
  [("key", bsonString ("auth_" +:+ init_param r))].

(** Lines 470-526.  A nil [s] makes the field access [s.DefaultOAuth1]
    of line 496 panic. *)
Definition oAuthInitRedirect (r : InitRequest) (w : World)
  : Flow unit * World * list InitEvent :=
  let authTempID := init_param r in
  let '(val, err) := FindAuthCache env (initKey r) w in
  let found := Core (Query Cusers_cache (initKey r)) in
  if negb (isNil err && (0 <? UserID val)%Z) then
    (Return, w,
     [found;
      Core (Log StdLog LError (tokenField authTempID) None "Unknown auth token");
      Core (Respond 403 "")])
  else
    let s := serviceByName env (oa_Service val) in
    let tz := init_tz r in
    if negb (tz =? "")%string then
      (Return, updateTZ ienv (UserID val) tz w,
       [found; UpdateTZ (UserID val) tz; Core (Respond 200 "")])
    else
      match s with
      | None => (Panic, w, [found])
      | Some s =>
          match DefaultOAuth1 s with
          | Some _ =>
              match url_Parse ienv (oa_BaseURL val) with
              | None =>
                  (Return, w,
                   [found;
                    Core (Log StdLog LError [("oauthID", authTempID)] err
                              "BaseURL empty");
                    Core (Respond 500 "Error occurred")])
              | Some u =>
                  let ctx := mkContext (oa_Service val) u (mkUser 0 "") (mkChat 0) in
                  let callback :=
                    BaseURL ienv +:+ "/auth/" +:+ internalID ienv ctx
                      +:+ "/?state=" +:+ authTempID in
                  let '(requestToken, url, err, w1) :=
                    GetRequestTokenAndUrl ienv ctx callback w in
                  match err with
                  | Some _ =>
                      (Return, w1,
                       [found;
                        RequestTokenCall ctx callback;
                        Core (Log StdLog LError [("oauthID", authTempID)] err
                                  "Error getting OAuth request URL");
                        Core (Respond 503 "Error getting OAuth request URL")])
                  | None =>
                      let '(err, w2) :=
                        updateRequestToken ienv (initKey r) requestToken w1 in
                      (Next tt, w2,
                       [found;
                        RequestTokenCall ctx callback;
                        StoreRequestToken (initKey r) requestToken err]
                         ++ match err with
                            | Some _ =>
                                [Core (Log CtxLog LError [] err
                                         "oAuthInitRedirect error updating authTempID")]
                            | None => []
                            end
                         ++ [RenderRedirect 200 "oauthredirect.tmpl" url;
                             Println "HTML"])
                  end
              end
          | None =>
              (Return, w, [found; Core (Respond 501 "Redirect is for OAuth1 only")])
          end
      end.

End Init.

(** The answers of a run: the responses and the page rendered. *)
Definition answers (t : list InitEvent) : list InitEvent :=
  filter (λ e, isAnswer e = true) t.

(** ** Sample deployments for the other routes *)

(** A request as the middlewares see it. *)
Definition sampleGinRequest : ginRequest :=
  mkGinRequest "/" "203.0.113.7" "POST" "curl/8.0".

(** A collection of previews that holds one record. *)
Definition samplePreview : webPreview :=
  mkPreview "p1" "Card moved" "Trello" "" "" "https://trello.example/c/1".

Definition samplePreviews (id : string) : webPreview * goerr :=
  if (id =? "p1")%string then (samplePreview, None)
  else (mkPreview "" "" "" "" "" "", Some (errorsNew "not found")).

(** An OAuth1 provider that hands out a request token, and a store
    whose updates succeed or fail as said. *)
Definition sampleInitEnv (stored : goerr) : @InitEnv unit :=
  mkInitEnv (λ s, Some s) "https://integram.example" ServiceName
            (λ _ _ w, ("reqtok", "https://trello.example/authorize?oauth_token=reqtok",
                       None, w))
            (λ _ _ w, w)
            (λ _ _ w, (stored, w)).

(** ** The Scoped Secret Filter *)

Section ScopedSecretFilter.

Lemma SliceContainsString_elem (s : list string) (e : string) :
  SliceContainsString s e = true ↔ e ∈ s.
Proof.
  induction s as [|a rest IH]; simpl.
  - split; [discriminate | intros H; inversion H].
  - destruct (String.eqb a e) eqn:E.
    + apply String.eqb_eq in E as ->. split; [intros _; left | done].
    + apply String.eqb_neq in E. rewrite IH. split.
      * intros H. by right.
      * intros H. inversion H; subst; [congruence | done].
Qed.

(** Whatever the order in which the keys are visited, and whether or
    not a key is visited twice, the loop leaves exactly the visited
    keys that name a service of the hook, plus the keys not visited. *)
Lemma rangeDelete_lookup {V} (services keys : list string)
    (m : gmap string V) (k : string) :
  rangeDelete services keys m !! k =
    if SliceContainsString services k then m !! k
    else if decide (k ∈ keys) then None else m !! k.
Proof.
  unfold rangeDelete. revert m.
  induction keys as [|x keys IH]; intros m; simpl.
  - destruct (SliceContainsString services k); [done|].
    destruct (decide (k ∈ [])) as [H|_]; [inversion H | done].
  - rewrite IH. destruct (SliceContainsString services k) eqn:Ek.
    + destruct (SliceContainsString services x) eqn:Ex; [done|].
      rewrite lookup_delete_ne; [done|]. intros ->. congruence.
    + destruct (decide (k ∈ keys)) as [Hin|Hnin].
      * rewrite decide_True; [done | by right].
      * destruct (decide (k = x)) as [->|Hne].
        -- rewrite decide_True by left. rewrite Ek. apply lookup_delete_eq.
        -- rewrite decide_False.
           ++ destruct (SliceContainsString services x); [done|].
              by rewrite lookup_delete_ne.
           ++ intros H. inversion H; subst; done.
Qed.

Lemma scopeMap_lookup {V} (services : list string) (m : gmap string V)
    (k : string) :
  scopeMap services m !! k =
    if SliceContainsString services k then m !! k else None.
Proof.
  unfold scopeMap. rewrite rangeDelete_lookup.
  destruct (SliceContainsString services k); [done|].
  destruct (decide (k ∈ (map_to_list m).*1)) as [_|Hnin]; [done|].
  destruct (m !! k) as [v|] eqn:E; [|done].
  exfalso. apply Hnin. apply list_elem_of_fmap.
  exists (k, v). split; [done|]. by apply elem_of_map_to_list.
Qed.

Lemma scopeMap_dom {V} (services : list string) (m : gmap string V)
    (k : string) :
  is_Some (scopeMap services m !! k) → k ∈ services.
Proof.
  rewrite scopeMap_lookup. intros [v Hv].
  apply SliceContainsString_elem.
  destruct (SliceContainsString services k); [done | discriminate].
Qed.

(** The loop over [user.Hooks] stops at the first hook that carries
    the token. *)
Lemma scopeUser_first (token : string) (pre post : list serviceHook)
    (H : serviceHook) (user : userData) (c : Context) :
  Forall (λ h, Token h ≠ token) pre →
  Token H = token →
  (scopeUser token (pre ++ H :: post) user c).1 =
    mkUserData (ud_User user)
               (scopeMap (Services H) (Protected user))
               (scopeMap (Services H) (Settings user)) [H].
Proof.
  intros Hpre HH. induction Hpre as [|h pre Hh _ IH]; simpl.
  - apply String.eqb_eq in HH. by rewrite HH.
  - apply String.eqb_neq in Hh. by rewrite Hh.
Qed.

Lemma scopeUser_User (token : string) (hooks : list serviceHook)
    (user : userData) (c : Context) :
  ud_User (scopeUser token hooks user c).1 = ud_User user.
Proof.
  induction hooks as [|h hooks IH]; simpl; [done|].
  by destruct (String.eqb (Token h) token).
Qed.

End ScopedSecretFilter.

(** ** Reasoning about handlers *)

Ltac proc :=
  repeat (unfold mbind, mret, Proc_bind, Proc_ret, emit, stop, panic, getCtx,
            putCtx, modifyCtx, readWorld, lookup_in, logIfErr, call, invoke in *;
          simpl in *).

Section FanRunFacts.
Context {X : Type} (aimed : X → Context → Prop) (ft token name : string).


Lemma FanRun_logged xs h o t :
  FanRun aimed ft token name xs h o t →
  ∀ i n a e, t !! i = Some (Webhook n a (Some e)) →
    t !! S i = Some (handlerErrorLog token e).
Proof.
  induction 1 as [h|x xs h a o t Ha _ IH|x xs h a msg o t Ha _ IH|x xs h a Ha|x xs h];
    intros i n0 a0 e Hi.
  - done.
  - destruct i as [|i]; simpl in Hi; [discriminate|]. by apply IH in Hi.
  - destruct i as [|[|i]]; simpl in Hi.
    + by inversion Hi.
    + discriminate.
    + by apply IH in Hi.
  - destruct i as [|[|[|i]]]; simpl in Hi; try discriminate. by inversion Hi.
  - done.
Qed.

Lemma FanRun_completed xs h h' t :
  FanRun aimed ft token name xs h (Completed h') t →
  Forall2 (λ x na, na.1 = name ∧ aimed x na.2) xs (calls t)
  ∧ h' = h || existsb isSuccess t
  ∧ Forall (λ e, isRespond e = false) t
  ∧ Forall (λ e, isFloodCall e = false) t.
Proof.
  intros Hrun. remember (Completed h') as o eqn:Ho.
  induction Hrun as [h|x xs h a o t Ha _ IH|x xs h a msg o t Ha _ IH|x xs h a Ha|x xs h].
  - inversion Ho; subst. repeat split; try constructor. by rewrite orb_false_r.
  - destruct (IH Ho) as (IH1 & IH2 & IH3 & IH4). repeat split.
    + by constructor.
    + simpl. rewrite orb_true_r. by rewrite IH2.
    + by constructor.
    + by constructor.
  - destruct (IH Ho) as (IH1 & IH2 & IH3 & IH4). repeat split.
    + by constructor.
    + done.
    + by repeat constructor.
    + by repeat constructor.
  - discriminate.
  - discriminate.
Qed.

Lemma FanRun_runs_on xs h o t :
  FanRun aimed ft token name xs h o t →
  Forall (λ e, isFloodCall e = false) t →
  o ≠ Panicked →
  ∃ h', o = Completed h'.
Proof.
  induction 1 as [h|x xs h a o t Ha _ IH|x xs h a msg o t Ha _ IH|x xs h a Ha|x xs h];
    intros Hnf Hnp.
  - by eexists.
  - inversion Hnf; subst. by apply IH.
  - inversion Hnf as [|? ? _ Hnf']; subst. inversion Hnf'; subst. by apply IH.
  - inversion Hnf as [|? ? Hx _]; subst. discriminate.
  - done.
Qed.

Lemma FanRun_aimed xs h o t :
  FanRun aimed ft token name xs h o t →
  ∀ n a, (n, a) ∈ calls t → n = name ∧ ∃ x, x ∈ xs ∧ aimed x a.
Proof.
  induction 1 as [h|x xs h a o t Ha _ IH|x xs h a msg o t Ha _ IH|x xs h a Ha|x xs h];
    intros n0 a0 Hin; unfold calls in Hin; simpl in Hin.
  - inversion Hin.
  - inversion Hin; subst.
    + split; [done|]. exists x. split; [left | done].
    + destruct (IH _ _ H1) as [-> (y & Hy & Hay)].
      split; [done|]. exists y. split; [by right | done].
  - inversion Hin; subst.
    + split; [done|]. exists x. split; [left | done].
    + destruct (IH _ _ H1) as [-> (y & Hy & Hay)].
      split; [done|]. exists y. split; [by right | done].
  - inversion Hin; subst.
    + split; [done|]. exists x. split; [left | done].
    + inversion H1.
  - inversion Hin.
Qed.

End FanRunFacts.

Lemma targets_calls (t : list Event) :
  targets t = (λ na, (na.1, Chat_ID (CtxChat na.2))) <$> calls t.
Proof.
  unfold targets, calls. induction t as [|e t IH]; [done|].
  destruct e; simpl; try done. by f_equal.
Qed.

Lemma targets_app (t1 t2 : list Event) :
  targets (t1 ++ t2) = targets t1 ++ targets t2.
Proof. apply omap_app. Qed.

Lemma targets_aimedAt (n : string) (chats : list Z) (t : list Event) :
  Forall2 (λ x na, na.1 = n ∧ aimedAt x na.2) chats (calls t) →
  targets t = pair n <$> chats.
Proof.
  rewrite targets_calls. generalize (calls t). intros cs H.
  induction H as [|x [n' a] chats cs [Hn Ha] _ IH]; [done|].
  simpl in Hn, Ha. unfold aimedAt in Ha. rewrite !fmap_cons. f_equal; [|done].
  simpl. by rewrite Hn, Ha.
Qed.

Lemma targetChats_fixed (chats : list Z) (cid cid' : Z) :
  targetChats chats cid ≠ [] →
  targetChats (targetChats chats cid) cid' = targetChats chats cid.
Proof.
  unfold targetChats. destruct chats as [|c chats]; [|done].
  destruct (cid =? 0)%Z; done.
Qed.

Section ServiceRunFacts.
Context {World : Type} (env : @Env World) (token : string) (chats : list Z).


Lemma ServiceRun_logged services h o t :
  ServiceRun env token chats services h o t →
  ∀ i n a e, t !! i = Some (Webhook n a (Some e)) →
    t !! S i = Some (handlerErrorLog token e).
Proof.
  induction 1 as [h|n rest h o t Hn _ IH|n rest h o t Hn Hc _ IH
                 |n rest h h1 t1 o t Hn Hc Hfan _ IH|n rest h o t1 Hn Hc Hfan Ho];
    intros i n0 a0 e Hi.
  - done.
  - by apply IH in Hi.
  - destruct i as [|i]; simpl in Hi; [discriminate|]. by apply IH in Hi.
  - apply lookup_app_Some in Hi as [Hi|[Hle Hi]].
    + apply (FanRun_logged _ _ _ _ _ _ _ _ Hfan) in Hi.
      by apply lookup_app_l_Some.
    + apply IH in Hi. apply lookup_app_Some. right. split; [lia|].
      by replace (S i - length t1) with (S (i - length t1)) by lia.
  - by apply (FanRun_logged _ _ _ _ _ _ _ _ Hfan) in Hi.
Qed.

Lemma ServiceRun_completed services h h' t :
  ServiceRun env token chats services h (Completed h') t →
  targets t = fanOut env services chats
  ∧ h' = h || existsb isSuccess t
  ∧ Forall (λ e, isRespond e = false) t
  ∧ Forall (λ e, isFloodCall e = false) t.
Proof.
  intros Hrun. remember (Completed h') as o eqn:Ho.
  induction Hrun as [h|n rest h o t Hn _ IH|n rest h o t Hn Hc _ IH
                 |n rest h h1 t1 o t Hn Hc Hfan _ IH|n rest h o t1 Hn Hc Hfan Hno].
  - inversion Ho; subst. repeat split; try constructor. by rewrite orb_false_r.
  - simpl. rewrite Hn. by apply IH.
  - destruct (IH Ho) as (IH1 & IH2 & IH3 & IH4).
    destruct Hn as [sv Hn]. simpl. rewrite Hn, Hc. simpl.
    rewrite Hc in IH1. repeat split; try done; by constructor.
  - destruct (IH Ho) as (IH1 & IH2 & IH3 & IH4).
    destruct (FanRun_completed _ _ _ _ _ _ _ _ Hfan) as (F1 & F2 & F3 & F4).
    destruct Hn as [sv Hn]. simpl. rewrite Hn. repeat split.
    + rewrite targets_app, IH1. f_equal. by apply targets_aimedAt.
    + rewrite existsb_app, IH2, F2. by rewrite orb_assoc.
    + by apply Forall_app.
    + by apply Forall_app.
  - subst. by destruct (Hno h').
Qed.

Lemma ServiceRun_runs_on services h o t :
  ServiceRun env token chats services h o t →
  Forall (λ e, isFloodCall e = false) t →
  o ≠ Panicked →
  ∃ h', o = Completed h'.
Proof.
  induction 1 as [h|n rest h o t Hn _ IH|n rest h o t Hn Hc _ IH
                 |n rest h h1 t1 o t Hn Hc Hfan _ IH|n rest h o t1 Hn Hc Hfan Hno];
    intros Hnf Hnp.
  - by eexists.
  - by apply IH.
  - inversion Hnf; subst. by apply IH.
  - apply Forall_app in Hnf as [_ Hnf]. by apply IH.
  - by apply (FanRun_runs_on _ _ _ _ _ _ _ _ Hfan).
Qed.

End ServiceRunFacts.

(** ** The loops leave traces of the shapes above *)

Section Adequacy.
Context {World : Type} (env : @Env World).

Lemma chatLoop_FanRun s name token wctx chats h st f st' t :
  chatLoop env s name token wctx chats h st = (f, st', t) →
  FanRun aimedAt (FloodText env) token name chats h (outcomeOf id f) t.
Proof.
  revert h st f st' t. induction chats as [|c rest IH]; intros h st f st' t Hrun.
  - proc. inversion Hrun; subst. constructor.
  - proc. destruct (WebhookHandler s) as [hd|]; proc.
    + destruct (hd wctx _ _) as [[err c'] w'] eqn:Hhd; proc.
      destruct err as [[|msg]|]; proc.
      * inversion Hrun; subst. by constructor.
      * destruct (chatLoop env s name token wctx rest h _) as [[f1 s1] t1] eqn:E.
        apply IH in E. inversion Hrun; subst. by constructor.
      * destruct (chatLoop env s name token wctx rest true _) as [[f1 s1] t1] eqn:E.
        apply IH in E. inversion Hrun; subst. by constructor.
    + inversion Hrun; subst. constructor.
Qed.

Lemma fill_chats (chats : list Z) (cid : Z) :
  (if (length chats =? 0) && negb (cid =? 0)%Z then [cid] else chats)
  = targetChats chats cid.
Proof.
  unfold targetChats. destruct chats as [|c chats]; simpl; [|done].
  by destruct (cid =? 0)%Z.
Qed.

Lemma serviceLoop_ServiceRun token wctx services chats h st f st' t :
  serviceLoop env token wctx services chats h st = (f, st', t) →
  ServiceRun env token (targetChats chats (Chat_ID (CtxChat (ctx st))))
             services h (outcomeOf id f) t.
Proof.
  revert chats h st f st' t.
  induction services as [|n rest IH]; intros chats h st f st' t Hrun.
  - proc. inversion Hrun; subst. constructor.
  - simpl in Hrun. destruct (serviceByName env n) as [sv|] eqn:Hn.
    + proc. rewrite !fill_chats in Hrun.
      set (cl := targetChats chats (Chat_ID (CtxChat (ctx st)))) in *.
      destruct (0 <? length cl) eqn:Elen.
      * assert (cl ≠ []) as Hne by (by destruct cl).
        destruct (chatLoop env sv n token wctx cl h _) as [[f1 s1] t1] eqn:E1.
        apply chatLoop_FanRun in E1.
        destruct f1 as [h1| |].
        -- destruct (serviceLoop env token wctx rest cl h1 s1)
             as [[f2 s2] t2] eqn:E2.
           apply IH in E2. unfold cl in E2 at 1.
           rewrite targetChats_fixed in E2 by done.
           inversion Hrun; subst. by eapply ServiceRun_next.
        -- inversion Hrun; subst. by apply ServiceRun_stop.
        -- inversion Hrun; subst. by apply ServiceRun_stop.
      * assert (cl = []) as Hnil by (by destruct cl).
        rewrite Hnil in Hrun.
        destruct (serviceLoop env token wctx rest [] h _) as [[f1 s1] t1] eqn:E.
        apply IH in E. simpl in E.
        assert ((Chat_ID (CtxChat (ctx st)) =? 0)%Z = true) as Hz.
        { unfold cl, targetChats in Hnil. destruct chats; [|done].
          by destruct (Chat_ID (CtxChat (ctx st)) =? 0)%Z. }
        rewrite Hz in E. inversion Hrun; subst.
        rewrite Hnil. by apply ServiceRun_notarget.
    + apply IH in Hrun. by apply ServiceRun_unknown.
Qed.

(** The body run for the matched hook: the trace of the service loop,
    then (if the loop ran to its end) the warning for an unhandled hook
    and the 200. *)
Lemma dispatchHook_run token wctx hook st f st' t :
  dispatchHook env token wctx hook st = (f, st', t) →
  ∃ o tb,
    ServiceRun env token
      (targetChats (Chats hook) (Chat_ID (CtxChat (ctx st))))
      (Services hook) false o tb
    ∧ match o with
      | Completed h =>
          f = Return
          ∧ t = tb ++ (if h then [] else [notHandledLog token])
                   ++ [Respond 200 ""]
      | Stopped => f = Return ∧ t = tb
      | Panicked => f = Panic ∧ t = tb
      end.
Proof.
  unfold dispatchHook. intros Hrun. proc.
  destruct (serviceLoop env token wctx (Services hook) (Chats hook) false st)
    as [[f1 s1] t1] eqn:E.
  apply serviceLoop_ServiceRun in E.
  exists (outcomeOf id f1), t1. split; [done|].
  destruct f1 as [[|]| |]; simpl; inversion Hrun; subst; done.
Qed.

Lemma hookLoop_matched token wctx pre hook post :
  Forall (λ h, Token h ≠ token) pre →
  Token hook = token →
  hookLoop env token wctx (pre ++ hook :: post) = dispatchHook env token wctx hook.
Proof.
  intros Hpre Hh. induction Hpre as [|h pre Hne _ IH]; simpl.
  - apply String.eqb_eq in Hh. by rewrite Hh.
  - apply String.eqb_neq in Hne. by rewrite Hne.
Qed.

End Adequacy.

(** ** The flood sentinel and the stages of [serviceHookHandler] *)






Section Resolution.
Context {World : Type} (env : @Env World).

Lemma autoChats_FanRun s name token wctx chats st f st' t :
  autoChats env s name token wctx chats st = (f, st', t) →
  ∀ h, ∃ g,
    FanRun (λ chat a, a = withChat (cd_Chat chat) (ctx st))
           (FloodText env) token name chats h (outcomeOf g f) t.
Proof.
  revert st f st' t. induction chats as [|c rest IH]; intros st f st' t Hrun h.
  - proc. inversion Hrun; subst. exists (λ _, h). constructor.
  - proc. destruct (WebhookHandler s) as [hd|]; proc.
    + destruct (hd wctx _ _) as [[err c'] w'] eqn:Hhd; proc.
      destruct err as [[|msg]|]; proc.
      * inversion Hrun; subst. exists (λ _, h). by constructor.
      * destruct (autoChats env s name token wctx rest _) as [[f1 s1] t1] eqn:E.
        apply IH with (h := h) in E as [g E]. simpl in E.
        inversion Hrun; subst. exists g. by constructor.
      * destruct (autoChats env s name token wctx rest _) as [[f1 s1] t1] eqn:E.
        apply IH with (h := true) in E as [g E]. simpl in E.
        inversion Hrun; subst. exists g. by constructor.
    + inversion Hrun; subst. exists (λ _, h). constructor.
Qed.

Lemma autoUsers_FanRun s name token wctx users st f st' t :
  autoUsers env s name token wctx users st = (f, st', t) →
  ∀ h, ∃ g,
    FanRun (λ user a,
              a = withChat (mkChat (User_ID (ud_User user)))
                           (withUser (ud_User user) (ctx st)))
           (FloodText env) token name users h (outcomeOf g f) t.
Proof.
  revert st f st' t. induction users as [|c rest IH]; intros st f st' t Hrun h.
  - proc. inversion Hrun; subst. exists (λ _, h). constructor.
  - proc. destruct (WebhookHandler s) as [hd|]; proc.
    + destruct (hd wctx _ _) as [[err c'] w'] eqn:Hhd; proc.
      destruct err as [[|msg]|]; proc.
      * inversion Hrun; subst. exists (λ _, h). by constructor.
      * destruct (autoUsers env s name token wctx rest _) as [[f1 s1] t1] eqn:E.
        apply IH with (h := h) in E as [g E]. simpl in E.
        inversion Hrun; subst. exists g. by constructor.
      * destruct (autoUsers env s name token wctx rest _) as [[f1 s1] t1] eqn:E.
        apply IH with (h := true) in E as [g E]. simpl in E.
        inversion Hrun; subst. exists g. by constructor.
    + inversion Hrun; subst. exists (λ _, h). constructor.
Qed.



(** What the two token lookups do, as equations. *)
Lemma userToken_run token body st :
  userToken env token body st =
    let found := (FindUser env (hooksTokenQuery token) (world st)).1 in
    let err := (FindUser env (hooksTokenQuery token) (world st)).2 in
    let user := (scopeUser token (Hooks found) found (ctx st)).1 in
    let c := (scopeUser token (Hooks found) found (ctx st)).2 in
    let st' := mkStore (withUser (ud_User user) c) (world st) in
    if isNil err && (0 <? User_ID (ud_User user))%Z then
      (Next user, st', [Query Cusers (hooksTokenQuery token)])
    else
      (Return, st',
       [Query Cusers (hooksTokenQuery token);
        WriteFile (rawFileName token (Now env (world st))) body;
        Log StdLog LError (tokenField token) None "Unknown user token"]).
Proof.
  unfold userToken, dumpRaw. proc.
  destruct (FindUser env (hooksTokenQuery token) (world st)) as [found err].
  simpl. destruct (scopeUser token (Hooks found) found (ctx st)) as [user c].
  simpl. by destruct (isNil err && (0 <? User_ID (ud_User user))%Z).
Qed.

Lemma chatToken_run token body st :
  chatToken env token body st =
    let chat := (FindChat env (hooksTokenQuery token) (world st)).1 in
    let err := (FindChat env (hooksTokenQuery token) (world st)).2 in
    if isNil err && negb (Chat_ID (cd_Chat chat) =? 0)%Z then
      (Next (cd_Hooks chat),
       mkStore (withChat (cd_Chat chat) (ctx st)) (world st),
       [Query Cchats (hooksTokenQuery token)])
    else
      (Return, st,
       [Query Cchats (hooksTokenQuery token);
        WriteFile (rawFileName token (Now env (world st))) body;
        Log StdLog LError (tokenField token) None "Unknown chat token"]).
Proof.
  unfold chatToken, dumpRaw. proc.
  destruct (FindChat env (hooksTokenQuery token) (world st)) as [chat err].
  simpl. destruct (isNil err && negb (Chat_ID (cd_Chat chat) =? 0)%Z);
    simpl; [done|]. by destruct st.
Qed.

(** The chain of lines 362-425, for a token that is not empty and a
    request that is not in auto-detect mode. *)
Lemma resolveHooks_token token a rest service body wctx st :
  token = String a rest →
  negb (service =? "")%string
    && ((token =? "service")%string || (token =? "")%string) = false →
  resolveHooks env token service body wctx st =
    if (String a "" =? "u")%string then
      match userToken env token body st with
      | (Next user, s1, t1) => (Next (Hooks user), s1, t1)
      | (Return, s1, t1) => (Return, s1, t1)
      | (Panic, s1, t1) => (Panic, s1, t1)
      end
    else if (String a "" =? "c")%string || (String a "" =? "h")%string then
      chatToken env token body st
    else (Return, st, [Respond 404 ""]).
Proof.
  intros -> Hmode. unfold resolveHooks. rewrite Hmode.
  unfold slice01, mbind, mret, Proc_bind, Proc_ret. cbv beta iota zeta.
  destruct (String a "" =? "u")%string.
  - destruct (userToken env (String a rest) body st) as [[[user| |] s1] t1];
      cbv beta iota zeta; [|done|done]. by rewrite app_nil_r.
  - destruct ((String a "" =? "c")%string || (String a "" =? "h")%string).
    + by destruct (chatToken env (String a rest) body st) as [[f1 s1] t1].
    + done.
Qed.



(** The handler as its two stages: the resolution of the token, then
    the loop over the hooks found. *)
Lemma serviceHookHandler_stages r st :
  serviceHookHandler env r st =
    let wctx := mkWctx (req_rnd r) (req_body r) in
    match resolveHooks env (req_param r) (req_service r) (req_body r) wctx
                       (entryStore r st) with
    | (Next hooks, st1, t1) =>
        let '(f, st2, t2) := hookLoop env (req_param r) wctx hooks st1 in
        (f, st2, t1 ++ t2)
    | (Return, st1, t1) => (Return, st1, t1)
    | (Panic, st1, t1) => (Panic, st1, t1)
    end.
Proof.
  unfold serviceHookHandler, entryStore. proc.
  destruct (negb (req_service r =? "")%string); simpl;
    destruct (resolveHooks _ _ _ _ _ _) as [[[hooks| |] st1] t1]; simpl; try done;
    by destruct (hookLoop _ _ _ _ _) as [[f st2] t2].
Qed.


End Resolution.

(** ** The dispatch loop over the matched hook *)

Section Dispatch.
Context {World : Type} (env : @Env World).

Lemma token_mode_false (a : string) rest service :
  a = "u" ∨ a = "c" ∨ a = "h" →
  negb (service =? "")%string
    && ((a +:+ rest =? "service")%string || (a +:+ rest =? "")%string) = false.
Proof. intros [->|[->| ->]]; simpl; by rewrite andb_false_r. Qed.

Lemma targets_quiet_tail (token : string) (h : bool) :
  targets ((if h then [] else [notHandledLog token]) ++ [Respond 200 ""]) = [].
Proof. by destruct h. Qed.

Lemma dispatchHook_eq token wctx hook st :
  dispatchHook env token wctx hook st =
    match serviceLoop env token wctx (Services hook) (Chats hook) false st with
    | (Next h, s1, t1) =>
        (Return, s1,
         t1 ++ (if h then [] else [notHandledLog token]) ++ [Respond 200 ""])
    | (Return, s1, t1) => (Return, s1, t1)
    | (Panic, s1, t1) => (Panic, s1, t1)
    end.
Proof.
  unfold dispatchHook. proc.
  by destruct (serviceLoop _ _ _ _ _ _ _) as [[[[]| |] s1] t1].
Qed.

Lemma hookLoop_completes token wctx pre hook post st f st' t :
  Forall (λ h, Token h ≠ token) pre →
  Token hook = token →
  hookLoop env token wctx (pre ++ hook :: post) st = (f, st', t) →
  quiet t →
  f ≠ Panic →
  f = Return
  ∧ targets t = fanOut env (Services hook)
                  (targetChats (Chats hook) (Chat_ID (CtxChat (ctx st))))
  ∧ ∃ body,
      t = body ++ (if existsb isSuccess body then [] else [notHandledLog token])
               ++ [Respond 200 ""]
      ∧ Forall (λ e, isRespond e = false) body.
Proof.
  intros Hpre Hh Hrun Hq Hnp. rewrite hookLoop_matched in Hrun by done.
  apply dispatchHook_run in Hrun as (o & tb & Hsr & Ho).
  assert (quiet tb ∧ o ≠ Panicked) as [Hqb Hop].
  { destruct o as [h| |].
    - destruct Ho as [_ ->]. apply Forall_app in Hq as [Hq _]. done.
    - destruct Ho as [_ ->]. done.
    - by destruct Ho as [-> _]. }
  destruct (ServiceRun_runs_on _ _ _ _ _ _ _ Hsr Hqb Hop) as [h ->].
  destruct Ho as [-> ->].
  apply ServiceRun_completed in Hsr as (Ht & Hh' & Hr & _). simpl in Hh'.
  split; [done|]. split.
  - by rewrite targets_app, targets_quiet_tail, app_nil_r.
  - exists tb. by rewrite <- Hh'.
Qed.

Lemma hookLoop_logged token wctx pre hook post st f st' t :
  Forall (λ h, Token h ≠ token) pre →
  Token hook = token →
  hookLoop env token wctx (pre ++ hook :: post) st = (f, st', t) →
  ∀ i n a e, t !! i = Some (Webhook n a (Some e)) →
    t !! S i = Some (handlerErrorLog token e).
Proof.
  intros Hpre Hh Hrun i n a e Hi. rewrite hookLoop_matched in Hrun by done.
  apply dispatchHook_run in Hrun as (o & tb & Hsr & Ho).
  destruct o as [h| |]; destruct Ho as [_ ->];
    try by eapply ServiceRun_logged.
  apply lookup_app_Some in Hi as [Hi|[_ Hi]].
  - apply lookup_app_l_Some. by eapply ServiceRun_logged.
  - destruct h; simpl in Hi.
    + by destruct (i - length tb) as [|[|?]].
    + by destruct (i - length tb) as [|[|[|?]]].
Qed.


Lemma targets_cons_call n a r t :
  targets (Webhook n a r :: t) = (n, Chat_ID (CtxChat a)) :: targets t.
Proof. reflexivity. Qed.



Lemma unroutable_token_404 (r : HookRequest) (st : Store) a rest :
  req_param r = String a rest →
  req_service r = "" ∨ (req_param r ≠ "service") →
  (String a "" =? "u")%string = false →
  (String a "" =? "c")%string = false →
  (String a "" =? "h")%string = false →
  serviceHookHandler env r st = (Return, entryStore r st, [Respond 404 ""]).
Proof.
  intros Htok Hmode Hu Hc Hh. rewrite serviceHookHandler_stages. cbv zeta.
  rewrite (resolveHooks_token env _ _ _ _ _ _ _ Htok).
  - by rewrite Hu, Hc, Hh.
  - destruct Hmode as [-> | Hne]; [done|].
    apply String.eqb_neq in Hne. rewrite Hne, Htok. simpl. apply andb_false_r.
Qed.

End Dispatch.

(** ** The OAuth callback *)

Lemma lookup_past_prefix (pre t : list Event) i c ps r :
  unsaved pre →
  (pre ++ t) !! i = Some (SaveProtected c ps r) →
  ∃ j, t !! j = Some (SaveProtected c ps r)
       ∧ drop (S i) (pre ++ t) = drop (S j) t.
Proof.
  intros Hpre Hi. apply lookup_app_Some in Hi as [Hi|[Hle Hi]].
  - eapply Forall_lookup_1 in Hpre; [|done]. done.
  - exists (i - length pre). split; [done|].
    rewrite drop_app_ge by lia. f_equal. lia.
Qed.

Section OAuth.
Context {World : Type} (env : @Env World).

Lemma obtainToken_unsaved s r val st f st' t :
  obtainToken env s r val st = (f, st', t) → unsaved t.
Proof.
  unfold obtainToken. intros Hrun.
  destruct (DefaultOAuth2 s) as [o2|].
  - destruct (AccessTokenReceiver2 o2) as [receiver|]; proc.
    + destruct (receiver r _ _) as [[[[[at' ex] rt] err] c'] w'].
      inversion Hrun; subst. constructor.
    + destruct (form_code r =? "")%string; proc.
      * inversion Hrun; subst. by repeat constructor.
      * destruct (Exchange env _ _ _) as [[[otoken err] c'] w']. simpl in Hrun.
        destruct otoken; inversion Hrun; subst; by repeat constructor.
  - destruct (DefaultOAuth1 s) as [o1|]; proc.
    + destruct (AccessTokenReceiver1 o1) as [receiver|]; proc.
      * destruct (receiver r _ _ _) as [[[at' err] c'] w'].
        inversion Hrun; subst. constructor.
      * inversion Hrun; subst. constructor.
    + inversion Hrun; subst. constructor.
Qed.

Lemma rejectEmptyToken_run id err st :
  rejectEmptyToken env id err st =
    match err with
    | Some e =>
        (Return, st,
         [Log StdLog LError [("oauthID", id)] err "Can't verify OAuth token";
          Respond 403 (Error env e)])
    | None =>
        (Panic, st,
         [Log StdLog LError [("oauthID", id)] err "Can't verify OAuth token"])
    end.
Proof. unfold rejectEmptyToken. by destruct err. Qed.

Lemma storeCredentials_failed s accessToken refreshToken expiresAt st f st' t :
  storeCredentials env s accessToken refreshToken expiresAt st = (f, st', t) →
  ∀ i c ps e, t !! i = Some (SaveProtected c ps (Some e)) →
    f = Next tt
    ∧ OAuthToken ps = accessToken
    ∧ drop (S i) t =
        saveFailureLog e
          :: match OAuthSuccessful s with
             | Some _ => [DoJob (Name s) c]
             | None => []
             end
          ++ [Respond 302 ("https://telegram.me/" +:+ Username (Service_Bot env s))].
Proof.
  unfold storeCredentials. intros Hrun i c ps e Hi. proc.
  destruct (protectedSettings env (ctx st) (world st)) as [[ps0|] err0];
    destruct err0 as [e0|]; simpl in Hrun;
    try (inversion Hrun; subst; by destruct i as [|[|?]]).
  - destruct (saveProtectedSettings env _ _ _) as [[e1|] w'] eqn:Es;
      destruct (OAuthSuccessful s); simpl in Hrun; inversion Hrun; subst;
      destruct i as [|[|[|[|[|?]]]]]; simpl in Hi; inversion Hi; subst; done.
  - destruct (saveProtectedSettings env _ _ _) as [[e1|] w'] eqn:Es;
      destruct (OAuthSuccessful s); simpl in Hrun; inversion Hrun; subst;
      destruct i as [|[|[|[|[|?]]]]]; simpl in Hi; inversion Hi; subst; done.
Qed.

Lemma storeCredentials_saved s accessToken refreshToken expiresAt st f st' t :
  storeCredentials env s accessToken refreshToken expiresAt st = (f, st', t) →
  ∀ i c ps res, t !! i = Some (SaveProtected c ps res) →
    OAuthToken ps = accessToken.
Proof.
  unfold storeCredentials. intros Hrun i c ps res Hi. proc.
  destruct (protectedSettings env (ctx st) (world st)) as [[ps0|] err0];
    destruct err0 as [e0|]; simpl in Hrun;
    try (inversion Hrun; subst; by destruct i as [|[|?]]).
  - destruct (saveProtectedSettings env _ _ _) as [[e1|] w'] eqn:Es;
      destruct (OAuthSuccessful s); simpl in Hrun; inversion Hrun; subst;
      destruct i as [|[|[|[|[|?]]]]]; simpl in Hi; inversion Hi; subst; done.
  - destruct (saveProtectedSettings env _ _ _) as [[e1|] w'] eqn:Es;
      destruct (OAuthSuccessful s); simpl in Hrun; inversion Hrun; subst;
      destruct i as [|[|[|[|[|?]]]]]; simpl in Hi; inversion Hi; subst; done.
Qed.

(** Protected settings are saved by lines 602-624 only, which run only
    with a non-empty access token. *)
Lemma oAuthCallback_save r st f st' t i c ps res :
  oAuthCallback env r st = (f, st', t) →
  t !! i = Some (SaveProtected c ps res) →
  ∃ s accessToken refreshToken expiresAt st1 t2 j,
    serviceByName env
      (oap_Service (findOauthProviderByID env (oa_param r) (world st)).1) = Some s
    ∧ accessToken ≠ ""
    ∧ storeCredentials env s accessToken refreshToken expiresAt st1 = (f, st', t2)
    ∧ t2 !! j = Some (SaveProtected c ps res)
    ∧ drop (S i) t = drop (S j) t2.
Proof.
  unfold oAuthCallback, Context_Service. intros Hrun Hi. proc.
  destruct (FindAuthCache env _ _) as [val err].
  destruct (negb (isNil err && (0 <? UserID val)%Z)); simpl in Hrun.
  { inversion Hrun; subst. by destruct i as [|[|[|?]]]. }
  destruct (findOauthProviderByID env (oa_param r) (world st)) as [oap [e1|]];
    simpl in Hrun.
  { inversion Hrun; subst. by destruct i as [|[|[|?]]]. }
  destruct (FindUser env _ _) as [found err2]. simpl in Hrun.
  destruct (serviceByName env (oap_Service oap)) as [s|] eqn:Hs; simpl in Hrun.
  2:{ inversion Hrun; subst. by destruct i as [|[|[|?]]]. }
  destruct (obtainToken env s r val _) as [[f1 s1] t1] eqn:E1.
  pose proof (obtainToken_unsaved _ _ _ _ _ _ _ E1) as Hu.
  assert (unsaved (Query Cusers_cache
                     [("key", bsonString ("auth_" +:+
                        (if (query_u r =? "")%string then query_state r
                         else query_u r)))]
                   :: Query Cusers [("_id", bsonInt (UserID val))] :: t1)) as Hpre.
  { by repeat constructor. }
  assert (∀ tail, unsaved tail →
            t = Query Cusers_cache
                  [("key", bsonString ("auth_" +:+
                     (if (query_u r =? "")%string then query_state r
                      else query_u r)))]
                :: Query Cusers [("_id", bsonInt (UserID val))] :: t1 ++ tail →
            False) as Hno.
  { intros tail Htail ->. rewrite !app_comm_cons in Hi.
    apply lookup_past_prefix in Hi as (j & Hj & _); [|done].
    eapply Forall_lookup_1 in Htail; [|done]. done. }
  destruct f1 as [[[[accessToken refreshToken] expiresAt] err3]| |].
  - destruct (accessToken =? "")%string eqn:Eat.
    + rewrite rejectEmptyToken_run in Hrun.
      destruct err3; inversion Hrun; subst; exfalso;
        (eapply Hno; [|reflexivity]); by repeat constructor.
    + destruct (storeCredentials env s accessToken refreshToken expiresAt s1)
        as [[f2 s2] t2] eqn:E2.
      inversion Hrun; subst. rewrite !app_comm_cons in Hi.
      apply lookup_past_prefix in Hi as (j & Hj & Hd); [|done].
      exists s, accessToken, refreshToken, expiresAt, s1, t2, j.
      split; [done|]. split; [by apply String.eqb_neq|].
      split; [done|]. split; [done|]. by rewrite !app_comm_cons.
  - inversion Hrun; subst. exfalso. apply (Hno []); [constructor|].
    by rewrite app_nil_r.
  - inversion Hrun; subst. exfalso. apply (Hno []); [constructor|].
    by rewrite app_nil_r.
Qed.

(** No run of the callback saves credentials whose access token is empty. *)
Lemma saved_token_not_empty r st f st' t i c ps res :
  oAuthCallback env r st = (f, st', t) →
  t !! i = Some (SaveProtected c ps res) →
  OAuthToken ps ≠ "".
Proof.
  intros Hrun Hi.
  destruct (oAuthCallback_save _ _ _ _ _ _ _ _ _ Hrun Hi)
    as (s & a & rt & ex & st1 & t2 & j & _ & Hne & Hst & Hj & _).
  by rewrite (storeCredentials_saved _ _ _ _ _ _ _ _ Hst _ _ _ _ Hj).
Qed.

End OAuth.

(** ** Which context a handler is handed *)

Section Sharing.
Context {World : Type} (env : @Env World).

(** Lines 439-453 hand the second target the context as the first
    handler left it, with the chat overwritten. *)
Lemma chatLoop_hands_on_context s hd name token wctx c1 c2 rest h st err c' w' :
  WebhookHandler s = Some hd →
  hd wctx (withChat (mkChat c1) (ctx st)) (world st) = (err, c', w') →
  err ≠ Some ErrorFlood →
  ∃ tail,
    calls (chatLoop env s name token wctx (c1 :: c2 :: rest) h st).2
      = (name, withChat (mkChat c1) (ctx st))
          :: (name, withChat (mkChat c2) c') :: tail.
Proof.
  intros Hhd Hcall Hnf. proc. rewrite Hhd. proc. rewrite Hcall. proc.
  destruct (hd wctx (withChat (mkChat c2) c') w') as [[err2 c''] w''] eqn:E2.
  destruct err as [[|msg]|]; [done| |]; proc; rewrite E2; proc;
    destruct err2 as [[|msg2]|]; proc;
    try (destruct (chatLoop env s name token wctx rest _ _) as [[f1 s1] t1]);
    eexists; reflexivity.
Qed.

(** Lines 322-336 hand every target a copy of the context as it stood
    when the loop was entered. *)
Lemma autoChats_hands_copies s name token wctx chats st f st' t :
  autoChats env s name token wctx chats st = (f, st', t) →
  ∀ n a, (n, a) ∈ calls t →
    ∃ chat, chat ∈ chats ∧ a = withChat (cd_Chat chat) (ctx st).
Proof.
  intros Hrun n a Hin.
  destruct (autoChats_FanRun env _ _ _ _ _ _ _ _ _ Hrun false) as [g Hfan].
  by destruct (FanRun_aimed _ _ _ _ _ _ _ _ Hfan _ _ Hin) as [_ ?].
Qed.

End Sharing.

(** ** Properties of the specification *)

Section Properties.
Context {World : Type} (env : @Env World).

(** C1.  A request whose token starts with [u] and whose lookup yields
    a User (no error, id > 0) owning a hook [H] with that token -- the
    first such hook of the User -- reaches line 404 with [user.Hooks]
    cut down to [H] and with [user.Protected] and [user.Settings]
    holding, for every key, the stored entry if the key names a service
    of [H] and nothing otherwise; so every key left names a service of
    [H].  Up to that point the trace holds the store query only (no
    handler has run), and the rest of the request is the dispatch over
    [H] from that state. *)
Theorem scoped_secret_filter (r : HookRequest) (st : Store) (rest : string)
    (found : userData) (pre post : list serviceHook) (H : serviceHook) :
  req_param r = "u" +:+ rest →
  FindUser env (hooksTokenQuery (req_param r)) (world st) = (found, None) →
  (0 < User_ID (ud_User found))%Z →
  Hooks found = pre ++ H :: post →
  Forall (λ h, Token h ≠ req_param r) pre →
  Token H = req_param r →
  ∃ user st1,
    userToken env (req_param r) (req_body r) (entryStore r st)
      = (Next user, st1, [Query Cusers (hooksTokenQuery (req_param r))])
    ∧ Hooks user = [H]
    ∧ (∀ k, Protected user !! k =
            if SliceContainsString (Services H) k then Protected found !! k
            else None)
    ∧ (∀ k, Settings user !! k =
            if SliceContainsString (Services H) k then Settings found !! k
            else None)
    ∧ (∀ k, is_Some (Protected user !! k) → k ∈ Services H)
    ∧ (∀ k, is_Some (Settings user !! k) → k ∈ Services H)
    ∧ serviceHookHandler env r st =
        (let '(f, st2, t) :=
           dispatchHook env (req_param r) (mkWctx (req_rnd r) (req_body r)) H st1 in
         (f, st2, Query Cusers (hooksTokenQuery (req_param r)) :: t)).
Proof.
  intros Htok Hfind Hid Hhooks Hpre HH.
  pose proof (userToken_run env (req_param r) (req_body r) (entryStore r st)) as Hu.
  cbv zeta in Hu. change (world (entryStore r st)) with (world st) in Hu.
  rewrite Hfind in Hu. simpl in Hu. rewrite Hhooks in Hu.
  rewrite scopeUser_first in Hu by done. simpl in Hu.
  apply Z.ltb_lt in Hid. rewrite Hid in Hu.
  eexists _, _. split; [exact Hu|]. simpl.
  split; [done|]. split; [apply scopeMap_lookup|]. split; [apply scopeMap_lookup|].
  split; [apply scopeMap_dom|]. split; [apply scopeMap_dom|].
  rewrite serviceHookHandler_stages. cbv zeta.
  rewrite (resolveHooks_token env _ _ rest _ _ _ _ Htok)
    by (rewrite Htok; apply token_mode_false; auto).
  simpl. rewrite Hu.
  rewrite (hookLoop_matched env _ _ [] H []) by done.
  reflexivity.
Qed.


(** C3.  In the loop over the hooks, with [hook] the first hook that
    carries the token: every invocation that returns an error other
    than the flood sentinel is followed at once by its log line, and
    whenever the loop runs to its end (no invocation returned the flood
    sentinel, no panic) every target of the fan-out was invoked, the
    handler returns, and the trace ends with the 200 -- the only
    response -- preceded by the "Hook not handled" warning exactly when
    no invocation succeeded. *)
Theorem partial_failure_tolerated (token : string) (wctx : WebhookContext)
    (pre post : list serviceHook) (hook : serviceHook) (st : Store)
    (f : Flow unit) (st' : Store) (t : list Event) :
  Forall (λ h, Token h ≠ token) pre →
  Token hook = token →
  hookLoop env token wctx (pre ++ hook :: post) st = (f, st', t) →
  (∀ i n a msg,
     t !! i = Some (Webhook n a (Some (errorsNew msg))) →
     t !! S i = Some (handlerErrorLog token (errorsNew msg)))
  ∧ ((∀ i n a, t !! i ≠ Some (Webhook n a (Some ErrorFlood))) →
     f ≠ Panic →
     f = Return
     ∧ targets t = fanOut env (Services hook)
                     (targetChats (Chats hook) (Chat_ID (CtxChat (ctx st))))
     ∧ ∃ body,
         t = body
               ++ (if existsb isSuccess body then [] else [notHandledLog token])
               ++ [Respond 200 ""]
         ∧ Forall (λ e, isRespond e = false) body).
Proof.
  intros Hpre Hh Hrun. split.
  - intros i n a msg Hi. by eapply hookLoop_logged.
  - intros Hnf Hnp. eapply hookLoop_completes; try done.
    apply Forall_lookup_2. intros i e Hi.
    destruct e as [| | | |n a [[|]|]| | | | |]; try done.
    by destruct (Hnf i n a).
Qed.


(** C6.  A request whose token starts with [u], [c] or [h] and whose
    lookup fails writes the request body to the file named by the token
    and the current Unix time, logs the error, and returns: the trace is
    the query, the file write and the log line, and holds no response
    (no body and no status code are written). *)
Theorem unknown_token_dumped (r : HookRequest) (st : Store)
    (coll : Collection) (msg : string) :
  LookupFailure env (req_param r) (world st) coll msg →
  ∃ st',
    serviceHookHandler env r st =
      (Return, st',
       [Query coll (hooksTokenQuery (req_param r));
        WriteFile (rawFileName (req_param r) (Now env (world st))) (req_body r);
        Log StdLog LError (tokenField (req_param r)) None msg]).
Proof.
  intros Hfail. rewrite serviceHookHandler_stages. cbv zeta.
  destruct Hfail as [rest found err Htok Hfind Hbad|rest chat err Htok Hfind Hbad].
  - rewrite (resolveHooks_token env _ _ rest _ _ _ _ Htok)
      by (rewrite Htok; apply token_mode_false; auto).
    simpl. rewrite userToken_run. cbv zeta.
    change (world (entryStore r st)) with (world st). rewrite Hfind. simpl.
    rewrite scopeUser_User.
    destruct (isNil err && (0 <? User_ID (ud_User found))%Z) eqn:E.
    + exfalso. apply Hbad. apply andb_true_iff in E as [E1 E2].
      split; [by destruct err | by apply Z.ltb_lt].
    + by eexists.
  - assert (negb (req_service r =? "")%string
            && ((req_param r =? "service")%string || (req_param r =? "")%string)
            = false) as Hmode.
    { destruct Htok as [-> | ->]; apply token_mode_false; auto. }
    assert (resolveHooks env (req_param r) (req_service r) (req_body r)
              (mkWctx (req_rnd r) (req_body r)) (entryStore r st)
            = chatToken env (req_param r) (req_body r) (entryStore r st)) as ->.
    { destruct Htok as [Htok | Htok];
        by rewrite (resolveHooks_token env _ _ rest _ _ _ _ Htok) by done. }
    rewrite chatToken_run. cbv zeta.
    change (world (entryStore r st)) with (world st). rewrite Hfind. simpl.
    destruct (isNil err && negb (Chat_ID (cd_Chat chat) =? 0)%Z) eqn:E.
    + exfalso. apply Hbad. apply andb_true_iff in E as [E1 E2].
      split; [by destruct err |].
      by apply negb_true_iff, Z.eqb_neq in E2.
    + by eexists.
Qed.


(** C9.  With an [EventHandler] set and a nil query,
    [TriggerEventHandler] returns nil at once: the state is untouched
    and the trace is empty (no store lookup, no handler invocation). *)
Theorem TriggerEventHandler_nil_query (s : Service) (queryChat : bool)
    (data : string) (st : Store) (h : string → Plugin goerr) :
  EventHandler s = Some h →
  TriggerEventHandler env s queryChat None data st = (Next None, st, []).
Proof. intros Hh. unfold TriggerEventHandler. by rewrite Hh. Qed.

(** C10.  In every run of [oAuthCallback] in which the protected
    settings are saved and the save fails, the credentials saved carry
    a non-empty access token, and the failure is followed by its log
    line, then the [OAuthSuccessful] job of the Service if it has one,
    then the 302 to the bot's deep link, after which the callback ends
    normally. *)
Theorem save_failure_only_logged (r : OAuthRequest) (st : Store)
    (f : Flow unit) (st' : Store) (t : list Event)
    (i : nat) (c : Context) (ps : userProtected) (e : error) :
  oAuthCallback env r st = (f, st', t) →
  t !! i = Some (SaveProtected c ps (Some e)) →
  ∃ s,
    serviceByName env
      (oap_Service (findOauthProviderByID env (oa_param r) (world st)).1) = Some s
    ∧ OAuthToken ps ≠ ""
    ∧ f = Next tt
    ∧ drop (S i) t =
        saveFailureLog e
          :: match OAuthSuccessful s with
             | Some _ => [DoJob (Name s) c]
             | None => []
             end
          ++ [Respond 302 ("https://telegram.me/" +:+ Username (Service_Bot env s))].
Proof.
  intros Hrun Hi.
  destruct (oAuthCallback_save env _ _ _ _ _ _ _ _ _ Hrun Hi)
    as (s & a & rt & ex & st1 & t2 & j & Hs & Hne & Hst & Hj & Hd).
  destruct (storeCredentials_failed env _ _ _ _ _ _ _ _ Hst _ _ _ _ Hj)
    as (Hf & Hps & Hdrop).
  exists s. split; [done|]. split; [by rewrite Hps|]. split; [done|].
  by rewrite Hd.
Qed.

End Properties.

(** C5, at an input on which the code departs from it.  A user token
    whose hook names services [a] and [b] and chats 10 and 20; the
    handler of [a] writes to the context it is handed.  The loop of
    lines 439-453 hands the same context to every target: what the
    handler wrote for (a, 10) -- another user, a service URL -- is
    what the handlers for (a, 20), (b, 10) and (b, 20) are handed. *)
Theorem token_loop_shares_context :
  calls (serviceHookHandler
           (sampleEnv (registryOf writingHandler okHandler) sampleUser nowhere None)
           sampleRequest sampleStore).2
  = [("a", mkContext "a" "" (mkUser 42 "bob") (mkChat 10));
     ("a", mkContext "a" "https://selfhosted.example" (mkUser 7 "eve") (mkChat 20));
     ("b", mkContext "b" "https://selfhosted.example" (mkUser 7 "eve") (mkChat 10));
     ("b", mkContext "b" "https://selfhosted.example" (mkUser 7 "eve") (mkChat 20))].
Proof. reflexivity. Qed.

(** C8, at an input on which the code departs from it.  The OAuth2
    receiver of the service reports an empty access token and a nil
    error: nothing is saved, and the callback panics in [err.Error()]
    before any response is written -- no 403. *)
Theorem empty_token_without_error_panics :
  oAuthCallback (sampleEnv (oauthRegistry "" None false) sampleUser nowhere None)
                sampleCallback sampleStore
  = (Panic,
     mkStore (mkContext "trello" "" (mkUser 42 "bob") (mkChat 42)) tt,
     [Query Cusers_cache [("key", bsonString "auth_tmp123")];
      Query Cusers [("_id", bsonInt 42)];
      Log StdLog LError [("oauthID", "prov1")] None "Can't verify OAuth token"]).
Proof. reflexivity. Qed.

(** ** The theorems at work on the sample deployments *)

Lemma scoped_secret_filter_witness :
  ∃ user,
    Hooks user = [sampleHook]
    ∧ Protected user !! "a" = Some (mkProtected "X" "" None)
    ∧ Protected user !! "gmail" = None
    ∧ ∀ k, is_Some (Settings user !! k) → k ∈ ["a"; "b"].
Proof.
  destruct (scoped_secret_filter
              (sampleEnv (registryOf okHandler okHandler) sampleUser nowhere None)
              sampleRequest sampleStore "tok" sampleUser
              [mkHook "uold" ["gmail"] []] [] sampleHook)
    as (user & st1 & _ & Hh & Hp & _ & _ & Hs & _).
  - reflexivity.
  - reflexivity.
  - reflexivity.
  - reflexivity.
  - repeat constructor. discriminate.
  - reflexivity.
  - exists user. split; [exact Hh|]. split; [|split].
    + rewrite Hp. reflexivity.
    + rewrite Hp. reflexivity.
    + exact Hs.
Defined.


Lemma partial_failure_tolerated_witness :
  let run :=
    hookLoop (sampleEnv (registryOf failHandler failHandler) sampleUser nowhere None)
             "utok" sampleWctx ([mkHook "uold" ["gmail"] []] ++ sampleHook :: [])
             sampleStore in
  run.2 !! 1 = Some (handlerErrorLog "utok" (errorsNew "boom"))
  ∧ run.1.1 = Return
  ∧ targets run.2 = [("a", 10); ("a", 20); ("b", 10); ("b", 20)]%Z.
Proof.
  intros run.
  destruct (partial_failure_tolerated
              (sampleEnv (registryOf failHandler failHandler) sampleUser nowhere None)
              "utok" sampleWctx [mkHook "uold" ["gmail"] []] [] sampleHook
              sampleStore run.1.1 run.1.2 run.2) as [Hlog Hend].
  - repeat constructor. discriminate.
  - reflexivity.
  - reflexivity.
  - split.
    + exact (Hlog 0 "a" (mkContext "a" "" (mkUser 0 "") (mkChat 10)) "boom" eq_refl).
    + destruct Hend as (Hf & Ht & _).
      * intros i n a Hi. unfold run in Hi. vm_compute in Hi.
        do 10 (destruct i as [|i]; [discriminate Hi|]). discriminate Hi.
      * discriminate.
      * split; [exact Hf | exact Ht].
Defined.


Lemma unknown_token_dumped_witness :
  ∃ st',
    serviceHookHandler
      (sampleEnv (registryOf okHandler okHandler) nobody nowhere None)
      sampleRequest sampleStore
    = (Return, st',
       [Query Cusers (hooksTokenQuery "utok");
        WriteFile "./raw/utok_1477958400.json" "{}";
        Log StdLog LError (tokenField "utok") None "Unknown user token"]).
Proof.
  apply (unknown_token_dumped
           (sampleEnv (registryOf okHandler okHandler) nobody nowhere None)
           sampleRequest sampleStore Cusers "Unknown user token").
  apply (UserLookupFails _ _ _ "tok" nobody None).
  - reflexivity.
  - reflexivity.
  - intros [_ H]. simpl in H. lia.
Defined.

Lemma TriggerEventHandler_nil_query_witness :
  TriggerEventHandler
    (sampleEnv (registryOf okHandler okHandler) sampleUser nowhere None)
    eventService true None "payload" sampleStore
  = (Next None, sampleStore, []).
Proof.
  apply (TriggerEventHandler_nil_query _ eventService true "payload" sampleStore
           (λ _ c w, (None, c, w))).
  reflexivity.
Defined.

Lemma save_failure_only_logged_witness :
  let env :=
    sampleEnv (oauthRegistry "tok" None true) sampleUser nowhere
              (Some (errorsNew "db down")) in
  let run := oAuthCallback env sampleCallback sampleStore in
  ∃ s,
    serviceByName env "trello" = Some s
    ∧ run.1.1 = Next tt
    ∧ drop 3 run.2 =
        [saveFailureLog (errorsNew "db down");
         DoJob "trello" (mkContext "trello" "" (mkUser 42 "bob") (mkChat 42));
         Respond 302 "https://telegram.me/integram_bot"].
Proof.
  intros env run.
  destruct (save_failure_only_logged env sampleCallback sampleStore
              run.1.1 run.1.2 run.2 2
              (mkContext "trello" "" (mkUser 42 "bob") (mkChat 42))
              (mkProtected "tok" "" None) (errorsNew "db down"))
    as (s & Hs & _ & Hf & Hd).
  - reflexivity.
  - reflexivity.
  - exists s. split; [exact Hs|]. split; [exact Hf|].
    rewrite Hd. simpl in Hs. inversion Hs; subst. reflexivity.
Defined.

(** * Further properties of the handlers *)

(** ** The scoped secret filter, whatever the order of the map *)

(** X1.  Go ranges over a map in an unspecified order.  The loop of
    lines 372-376 (and 378-382) deletes the same keys in whatever order
    it visits them: two orders that both visit every key of the map
    leave the same map. *)
Theorem rangeDelete_order_irrelevant {V} (services keys1 keys2 : list string)
    (m : gmap string V) :
  (∀ k, is_Some (m !! k) → k ∈ keys1) →
  (∀ k, is_Some (m !! k) → k ∈ keys2) →
  rangeDelete services keys1 m = rangeDelete services keys2 m.
Proof.
  intros H1 H2. apply map_eq. intros k. rewrite !rangeDelete_lookup.
  destruct (SliceContainsString services k); [done|].
  destruct (m !! k) as [v|] eqn:E.
  - rewrite !decide_True; [done| |]; [apply H2 | apply H1]; by rewrite E.
  - by destruct (decide (k ∈ keys1)), (decide (k ∈ keys2)).
Qed.

(** X2.  The filter of lines 372-382 only removes entries: what it
    leaves is a part of the map it was given, with the values
    untouched; and filtering again for the same hook changes nothing. *)
Theorem scopeMap_narrows {V} (services : list string) (m : gmap string V) :
  scopeMap services m ⊆ m
  ∧ scopeMap services (scopeMap services m) = scopeMap services m.
Proof.
  split.
  - apply map_subseteq_spec. intros k v. rewrite scopeMap_lookup.
    by destruct (SliceContainsString services k).
  - apply map_eq. intros k. rewrite !scopeMap_lookup.
    by destruct (SliceContainsString services k).
Qed.

(** ** The invocations of a request stay within the fan-out *)

Section Prefix.
Context {World : Type} (env : @Env World).

Lemma FanRun_targets_prefix ft token n chats h o t :
  FanRun aimedAt ft token n chats h o t →
  targets t `prefix_of` (pair n <$> chats).
Proof.
  induction 1 as [h|x xs h a o t Ha _ IH|x xs h a msg o t Ha _ IH|x xs h a Ha|x xs h].
  - done.
  - rewrite targets_cons_call, fmap_cons, Ha. by apply prefix_cons.
  - rewrite targets_cons_call, fmap_cons, Ha. by apply prefix_cons.
  - rewrite targets_cons_call, fmap_cons, Ha. apply prefix_cons.
    apply prefix_nil.
  - apply prefix_nil.
Qed.

Lemma ServiceRun_targets_prefix token chats services h o t :
  ServiceRun env token chats services h o t →
  targets t `prefix_of` fanOut env services chats.
Proof.
  induction 1 as [h|n rest h o t Hn _ IH|n rest h o t Hn Hc _ IH
                 |n rest h h1 t1 o t Hn Hc Hfan _ IH|n rest h o t1 Hn Hc Hfan Ho].
  - done.
  - simpl. by rewrite Hn.
  - destruct Hn as [sv Hn]. simpl. rewrite Hn, Hc. simpl. by rewrite Hc in IH.
  - destruct Hn as [sv Hn]. simpl. rewrite Hn, targets_app.
    destruct (FanRun_completed _ _ _ _ _ _ _ _ Hfan) as (F1 & _).
    rewrite (targets_aimedAt _ _ _ F1). by apply prefix_app.
  - destruct Hn as [sv Hn]. simpl. rewrite Hn.
    etrans; [by eapply FanRun_targets_prefix|]. by apply prefix_app_r.
Qed.

(** X3.  Whatever the handlers return -- nil, an error, the flood
    sentinel -- and even if one is missing, the invocations made for
    the first hook that carries the token are an initial part of the
    fan-out of that hook, in its order: no target is invoked twice, out
    of order, or for a service or chat outside the hook. *)
Theorem invocations_within_fan_out (token : string) (wctx : WebhookContext)
    (pre post : list serviceHook) (hook : serviceHook) (st : Store)
    (f : Flow unit) (st' : Store) (t : list Event) :
  Forall (λ h, Token h ≠ token) pre →
  Token hook = token →
  hookLoop env token wctx (pre ++ hook :: post) st = (f, st', t) →
  targets t `prefix_of`
    fanOut env (Services hook)
      (targetChats (Chats hook) (Chat_ID (CtxChat (ctx st)))).
Proof.
  intros Hpre Hh Hrun. rewrite hookLoop_matched in Hrun by done.
  apply dispatchHook_run in Hrun as (o & tb & Hsr & Ho).
  apply ServiceRun_targets_prefix in Hsr.
  destruct o as [h| |]; destruct Ho as [_ ->]; try done.
  by rewrite targets_app, targets_quiet_tail, app_nil_r.
Qed.
End Prefix.

(** ** At most one response *)

Lemma silent_lookup (t : list Event) i s b :
  silent t → t !! i ≠ Some (Respond s b).
Proof. intros Hs Hi. eapply Forall_lookup_1 in Hs; [|done]. done. Qed.

Lemma AnswersLast_silent {A} codes (f : Flow A) t :
  silent t → AnswersLast codes f t.
Proof. intros Hs i s b Hi. by apply silent_lookup in Hi. Qed.

Lemma AnswersLast_prefix {A} codes (f : Flow A) pre t :
  silent pre → AnswersLast codes f t → AnswersLast codes f (pre ++ t).
Proof.
  intros Hs Ht i s b Hi. apply lookup_app_Some in Hi as [Hi|[Hle Hi]].
  - by apply silent_lookup in Hi.
  - destruct (Ht _ _ _ Hi) as (-> & Hlen & Hin). split; [done|].
    split; [|done]. rewrite length_app. lia.
Qed.

Lemma AnswersLast_cons {A} codes (f : Flow A) e t :
  isRespond e = false → AnswersLast codes f t → AnswersLast codes f (e :: t).
Proof.
  intros He Ht. apply (AnswersLast_prefix _ _ [e]); [|done]. by constructor.
Qed.

Lemma AnswersLast_codes {A} codes codes' (f : Flow A) t :
  codes ⊆ codes' → AnswersLast codes f t → AnswersLast codes' f t.
Proof.
  intros Hsub Ht i s b Hi. destruct (Ht _ _ _ Hi) as (? & ? & ?).
  repeat split; try done. by apply Hsub.
Qed.

Ltac codes_solver :=
  repeat match goal with
         | H : _ ∈ [] |- _ => inversion H
         | H : _ ∈ _ :: _ |- _ => apply elem_of_cons in H as [->|H]
         end;
  try (intros ? ?);
  repeat match goal with
         | H : _ ∈ [] |- _ => inversion H
         | H : _ ∈ _ :: _ |- _ => apply elem_of_cons in H as [->|H]
         end;
  by repeat constructor.

Ltac silent_steps :=
  repeat first
    [ apply AnswersLast_cons; [done|]
    | apply Forall_cons; split; [done|]
    | apply Forall_nil_2 ].

Section Answers.
Context {World : Type} (env : @Env World).

Lemma FanRun_answers {X A} (aimed : X → Context → Prop) token name xs h
    (g : A → bool) (f : Flow A) t :
  FanRun aimed (FloodText env) token name xs h (outcomeOf g f) t →
  AnswersLast [429%Z] f t ∧ (∀ a, f = Next a → silent t).
Proof.
  intros Hrun. split.
  - remember (outcomeOf g f) as o eqn:Ho. revert Ho.
    induction Hrun as [h|x xs h a o t Ha _ IH|x xs h a msg o t Ha _ IH|x xs h a Ha|x xs h];
      intros Ho i s b Hi.
    + done.
    + destruct i as [|i]; simpl in Hi; [discriminate|].
      destruct (IH Ho _ _ _ Hi) as (? & ? & ?). simpl. repeat split; try done. lia.
    + destruct i as [|[|i]]; simpl in Hi; [discriminate..|].
      destruct (IH Ho _ _ _ Hi) as (? & ? & ?). simpl. repeat split; try done. lia.
    + destruct i as [|[|[|i]]]; simpl in Hi; try discriminate.
      inversion Hi; subst. split; [by destruct f|]. split; [done|].
      apply list_elem_of_singleton. done.
    + done.
  - intros a ->. simpl in Hrun.
    by destruct (FanRun_completed _ _ _ _ _ _ _ _ Hrun) as (_ & _ & ? & _).
Qed.

Lemma ServiceRun_answers token chats services h (f : Flow bool) t :
  ServiceRun env token chats services h (outcomeOf id f) t →
  AnswersLast [429%Z] f t.
Proof.
  remember (outcomeOf id f) as o eqn:Ho. intros Hrun. revert Ho.
  induction Hrun as [h|n rest h o t Hn _ IH|n rest h o t Hn Hc _ IH
                 |n rest h h1 t1 o t Hn Hc Hfan _ IH|n rest h o t1 Hn Hc Hfan Hno];
    intros Ho.
  - by intros i s b Hi.
  - by apply IH.
  - apply AnswersLast_cons; [done|]. by apply IH.
  - apply AnswersLast_prefix; [|by apply IH].
    by destruct (FanRun_completed _ _ _ _ _ _ _ _ Hfan) as (_ & _ & ? & _).
  - subst o. by apply (FanRun_answers _ _ _ _ _ _ _ _ Hfan).
Qed.

Lemma hookLoop_answers token wctx hooks st f st' t :
  hookLoop env token wctx hooks st = (f, st', t) →
  AnswersLast [200; 429]%Z f t.
Proof.
  induction hooks as [|hook rest IH]; simpl; intros Hrun.
  - inversion Hrun; subst. by intros i s b Hi.
  - destruct (Token hook =? token)%string; [|by apply IH].
    rewrite dispatchHook_eq in Hrun.
    destruct (serviceLoop _ _ _ _ _ _ _) as [[f1 s1] t1] eqn:E.
    apply serviceLoop_ServiceRun in E.
    pose proof (ServiceRun_answers _ _ _ _ _ _ E) as Ha.
    destruct f1 as [h| |]; inversion Hrun; subst.
    + apply ServiceRun_completed in E as (_ & _ & Hs & _).
      intros i s b Hi. apply lookup_app_Some in Hi as [Hi|[Hle Hi]].
      { by apply silent_lookup in Hi. }
      rewrite !length_app.
      destruct h; simpl in Hi |- *.
      * apply list_lookup_singleton_Some in Hi as [Hi0 Hi].
        inversion Hi; subst. split; [done|]. split; [lia|]. codes_solver.
      * destruct (i - length t1) as [|j] eqn:Ei; simpl in Hi; [done|].
        apply list_lookup_singleton_Some in Hi as [Hi0 Hi].
        inversion Hi; subst. split; [done|]. split; [lia|]. codes_solver.
    + intros i s b Hi. destruct (Ha _ _ _ Hi) as (_ & ? & ?).
      split; [done|]. split; [done|]. codes_solver.
    + intros i s b Hi. by destruct (Ha _ _ _ Hi) as (? & _).
Qed.

Lemma autoDetect_answers token service wctx st f st' t :
  autoDetect env token service wctx st = (f, st', t) →
  AnswersLast [429%Z] f t ∧ (∀ a, f = Next a → silent t).
Proof.
  unfold autoDetect. intros Hrun.
  destruct (serviceByName env service) as [s|]; proc.
  2:{ inversion Hrun; subst. split; [apply AnswersLast_silent; constructor|done]. }
  destruct (TokenHandler s) as [th|]; proc.
  2:{ inversion Hrun; subst. split; [apply AnswersLast_silent; constructor|done]. }
  destruct (th wctx _ _) as [[[[queryChat query] err] c'] w'] eqn:Eth; proc.
  destruct query as [q|].
  2:{ destruct err; simpl in Hrun; inversion Hrun; subst;
        (split; [apply AnswersLast_silent; unfold silent; silent_steps | done]). }
  destruct queryChat.
  - destruct err as [e1|]; simpl in Hrun;
      destruct (FindChats env q w') as [chats [e2|]] eqn:Ef; simpl in Hrun;
      destruct (autoChats env s service token wctx chats _)
        as [[f1 s4] t3] eqn:E;
      apply autoChats_FanRun with (h := false) in E as [g E];
      apply FanRun_answers in E as [E1 E2];
      inversion Hrun; subst;
      (split; [silent_steps; done
              | intros a Ha; unfold silent; silent_steps; by eapply E2]).
  - destruct err as [e1|]; simpl in Hrun;
      destruct (FindUsers env q w') as [users [e2|]] eqn:Ef; simpl in Hrun;
      destruct (autoUsers env s service token wctx users _)
        as [[f1 s4] t3] eqn:E;
      apply autoUsers_FanRun with (h := false) in E as [g E];
      apply FanRun_answers in E as [E1 E2];
      inversion Hrun; subst;
      (split; [silent_steps; done
              | intros a Ha; unfold silent; silent_steps; by eapply E2]).
Qed.

Lemma resolveHooks_answers token service body wctx st f st' t :
  resolveHooks env token service body wctx st = (f, st', t) →
  AnswersLast [404; 429]%Z f t ∧ (∀ a, f = Next a → silent t).
Proof.
  intros Hrun.
  destruct (negb (service =? "")%string
            && ((token =? "service")%string || (token =? "")%string)) eqn:Hmode.
  - unfold resolveHooks in Hrun. rewrite Hmode in Hrun. proc.
    destruct (autoDetect env token service wctx st) as [[f1 s1] t1] eqn:E.
    apply autoDetect_answers in E as [E1 E2].
    destruct f1 as [[]| |]; inversion Hrun; subst.
    + rewrite app_nil_r. split; [|intros; by eapply E2].
      apply AnswersLast_silent. by eapply E2.
    + split; [|done]. intros i s b Hi. destruct (E1 _ _ _ Hi) as (? & ? & ?).
      repeat split; try done. codes_solver.
    + split; [|done]. intros i s b Hi. by destruct (E1 _ _ _ Hi) as (? & ? & ?).
  - destruct token as [|a rest].
    { unfold resolveHooks in Hrun. rewrite Hmode in Hrun. proc.
      inversion Hrun; subst. split; [by intros i s b Hi | done]. }
    rewrite (resolveHooks_token _ _ a rest) in Hrun by done.
    destruct (String a "" =? "u")%string.
    + rewrite userToken_run in Hrun. cbv zeta in Hrun.
      destruct (isNil _ && _); inversion Hrun; subst;
        (split; [apply AnswersLast_silent|intros]; unfold silent; silent_steps).
    + destruct ((String a "" =? "c")%string || (String a "" =? "h")%string).
      * rewrite chatToken_run in Hrun. cbv zeta in Hrun.
        destruct (isNil _ && _); inversion Hrun; subst;
          (split; [apply AnswersLast_silent|intros]; unfold silent; silent_steps).
      * inversion Hrun; subst. split; [|done].
        intros [|i] s b Hi; [|done]. inversion Hi; subst.
        split; [done|]. split; [done|]. codes_solver.
Qed.

Lemma serviceHookHandler_answers r st f st' t :
  serviceHookHandler env r st = (f, st', t) →
  AnswersLast [200; 404; 429]%Z f t.
Proof.
  rewrite serviceHookHandler_stages. cbv zeta. intros Hrun.
  destruct (resolveHooks _ _ _ _ _ _) as [[f1 st1] t1] eqn:E1.
  apply resolveHooks_answers in E1 as [E1 E2].
  destruct f1 as [hooks| |].
  - destruct (hookLoop _ _ _ _ _) as [[f2 st2] t2] eqn:E3.
    apply hookLoop_answers in E3. inversion Hrun; subst.
    apply AnswersLast_prefix; [by eapply E2|].
    eapply AnswersLast_codes; [|done]. codes_solver.
  - inversion Hrun; subst. intros j s0 b0 Hj.
    destruct (E1 _ _ _ Hj) as (_ & ? & ?).
    split; [done|]. split; [done|]. codes_solver.
  - inversion Hrun; subst. intros j s0 b0 Hj.
    by destruct (E1 _ _ _ Hj) as (? & ? & ?).
Qed.

(** X4.  [serviceHookHandler] writes at most one response: a response
    is the last event of the request, the handler returns right after
    it, and its status is 200, 404 or 429. *)
Theorem at_most_one_response (r : HookRequest) (st : Store) (f : Flow unit)
    (st' : Store) (t : list Event) (i : nat) (s : Z) (b : string) :
  serviceHookHandler env r st = (f, st', t) →
  t !! i = Some (Respond s b) →
  f = Return ∧ S i = length t ∧ (s = 200 ∨ s = 404 ∨ s = 429)%Z.
Proof.
  intros Hrun Hi.
  destruct (serviceHookHandler_answers _ _ _ _ _ Hrun _ _ _ Hi)
    as (Hf & Hlen & Hin).
  split; [done|]. split; [done|]. codes_solver.
Qed.

End Answers.

(** ** Records without the hook, hooks without chats, other tokens *)

Section Edge.
Context {World : Type} (env : @Env World).

Lemma hookLoop_no_hook token wctx hooks st :
  Forall (λ h, Token h ≠ token) hooks →
  hookLoop env token wctx hooks st = (Next tt, st, []).
Proof.
  induction 1 as [|h hooks Hne _ IH]; simpl; [done|].
  apply String.eqb_neq in Hne. by rewrite Hne.
Qed.

Lemma scopeUser_no_hook token hooks user c :
  Forall (λ h, Token h ≠ token) hooks →
  scopeUser token hooks user c = (user, c).
Proof.
  induction 1 as [|h hooks Hne _ IH]; simpl; [done|].
  apply String.eqb_neq in Hne. by rewrite Hne.
Qed.

Lemma chatToken_mode r rest st :
  req_param r = "c" +:+ rest ∨ req_param r = "h" +:+ rest →
  resolveHooks env (req_param r) (req_service r) (req_body r)
    (mkWctx (req_rnd r) (req_body r)) (entryStore r st)
  = chatToken env (req_param r) (req_body r) (entryStore r st).
Proof.
  intros Htok.
  assert (negb (req_service r =? "")%string
          && ((req_param r =? "service")%string || (req_param r =? "")%string)
          = false) as Hmode.
  { destruct Htok as [-> | ->]; apply token_mode_false; auto. }
  destruct Htok as [Htok | Htok];
    by rewrite (resolveHooks_token env _ _ rest _ _ _ _ Htok) by done.
Qed.

(** X5.  The store finds a record for the token, but none of its
    hooks carries the token (the store matched a stale index, or the
    hooks changed).  Then the request does nothing after the lookup: no
    handler is invoked, nothing is logged or dumped, and no response is
    written -- the function falls off its end. *)
Theorem record_without_the_hook (r : HookRequest) (st : Store)
    (coll : Collection) (hooks : list serviceHook) :
  LookupFound env (req_param r) (world st) coll hooks →
  Forall (λ h, Token h ≠ req_param r) hooks →
  ∃ st',
    serviceHookHandler env r st
      = (Next tt, st', [Query coll (hooksTokenQuery (req_param r))]).
Proof.
  intros Hfound Hnone. rewrite serviceHookHandler_stages. cbv zeta.
  destruct Hfound as [rest found Htok Hfind Hid|rest chat Htok Hfind Hid].
  - rewrite (resolveHooks_token env _ _ rest _ _ _ _ Htok)
      by (rewrite Htok; apply token_mode_false; auto).
    simpl. rewrite userToken_run. cbv zeta.
    change (world (entryStore r st)) with (world st). rewrite Hfind. simpl.
    rewrite scopeUser_no_hook by done. simpl.
    apply Z.ltb_lt in Hid. rewrite Hid.
    rewrite hookLoop_no_hook by done. by eexists.
  - rewrite (chatToken_mode r rest) by done. rewrite chatToken_run. cbv zeta.
    change (world (entryStore r st)) with (world st). rewrite Hfind. simpl.
    apply Z.eqb_neq in Hid. rewrite Hid. simpl.
    rewrite hookLoop_no_hook by done. by eexists.
Qed.

Lemma serviceLoop_no_targets token wctx services h st :
  Chat_ID (CtxChat (ctx st)) = 0%Z →
  ∃ st',
    serviceLoop env token wctx services [] h st
      = (Next h, st', noTargetLogs env token services).
Proof.
  revert st. induction services as [|n rest IH]; intros st Hz; simpl.
  - by eexists.
  - destruct (serviceByName env n) as [sv|]; [|by apply IH].
    proc. rewrite Hz. simpl.
    destruct (IH (mkStore (withServiceName n (ctx st)) (world st)))
      as [st' ->]; [done|].
    by eexists.
Qed.

Lemma scopeUser_ctx_chat token hooks user c :
  CtxChat (scopeUser token hooks user c).2 = CtxChat c.
Proof.
  induction hooks as [|h hooks IH]; simpl; [done|].
  destruct (Token h =? token)%string; [|done].
  by destruct (Services h) as [|? [|? ?]].
Qed.

(** X6.  A user token whose hook lists no chats has no target at all,
    as [ctx.Chat] is not set on this path: no handler is invoked, each
    registered service of the hook gets the warning "No target chats
    for token", the hook is reported as not handled, and the request is
    answered 200. *)
Theorem user_hook_without_chats (r : HookRequest) (st : Store) (rest : string)
    (found : userData) (pre post : list serviceHook) (H : serviceHook) :
  req_param r = "u" +:+ rest →
  FindUser env (hooksTokenQuery (req_param r)) (world st) = (found, None) →
  (0 < User_ID (ud_User found))%Z →
  Hooks found = pre ++ H :: post →
  Forall (λ h, Token h ≠ req_param r) pre →
  Token H = req_param r →
  Chats H = [] →
  ∃ st',
    serviceHookHandler env r st
      = (Return, st',
         Query Cusers (hooksTokenQuery (req_param r))
           :: noTargetLogs env (req_param r) (Services H)
           ++ [notHandledLog (req_param r); Respond 200 ""]).
Proof.
  intros Htok Hfind Hid Hhooks Hpre HH Hchats.
  rewrite serviceHookHandler_stages. cbv zeta.
  rewrite (resolveHooks_token env _ _ rest _ _ _ _ Htok)
    by (rewrite Htok; apply token_mode_false; auto).
  simpl. rewrite userToken_run. cbv zeta.
  change (world (entryStore r st)) with (world st). rewrite Hfind. simpl.
  rewrite scopeUser_User. apply Z.ltb_lt in Hid. rewrite Hid.
  rewrite Hhooks. rewrite scopeUser_first by done. simpl.
  apply String.eqb_eq in HH. rewrite HH.
  rewrite dispatchHook_eq. rewrite Hchats.
  edestruct (serviceLoop_no_targets (req_param r)
               (mkWctx (req_rnd r) (req_body r)) (Services H) false) as [st' ->].
  2:{ by eexists. }
  simpl. rewrite scopeUser_ctx_chat. unfold entryStore. simpl.
  by destruct (negb (req_service r =? "")%string).
Qed.

(** X7.  A token that is not empty, outside auto-detect mode, whose
    first character is none of [u], [c], [h], is answered 404 and
    nothing else: no store is queried and nothing is logged. *)
Theorem other_first_character_answers_404 (r : HookRequest) (st : Store)
    (a : Ascii.ascii) (rest : string) :
  req_param r = String a rest →
  req_service r = "" ∨ req_param r ≠ "service" →
  String a "" ≠ "u" →
  String a "" ≠ "c" →
  String a "" ≠ "h" →
  serviceHookHandler env r st = (Return, entryStore r st, [Respond 404 ""]).
Proof.
  intros Htok Hmode Hu Hc Hh.
  eapply unroutable_token_404; try done; by apply String.eqb_neq.
Qed.

End Edge.

(** ** Auto-detect mode *)

Section AutoDetect.
Context {World : Type} (env : @Env World).

Lemma autoMode_true r :
  autoMode r →
  negb (req_service r =? "")%string
    && ((req_param r =? "service")%string || (req_param r =? "")%string) = true.
Proof.
  intros [Hs Ht]. apply String.eqb_neq in Hs. rewrite Hs. simpl.
  destruct Ht as [-> | ->]; [done|]. apply orb_true_r.
Qed.

Lemma serviceHookHandler_auto r st :
  autoMode r →
  serviceHookHandler env r st =
    match autoDetect env (req_param r) (req_service r)
            (mkWctx (req_rnd r) (req_body r))
            (mkStore (withServiceName (req_service r) newContext) (world st)) with
    | (Next _, st1, t1) => (Next tt, st1, t1)
    | (Return, st1, t1) => (Return, st1, t1)
    | (Panic, st1, t1) => (Panic, st1, t1)
    end.
Proof.
  intros Hmode. rewrite serviceHookHandler_stages. cbv zeta.
  unfold resolveHooks. rewrite (autoMode_true _ Hmode).
  unfold entryStore. destruct Hmode as [Hs _].
  apply String.eqb_neq in Hs. rewrite Hs. simpl. proc.
  destruct (autoDetect _ _ _ _ _) as [[[[]| |] st1] t1]; simpl; try done.
  by rewrite !app_nil_r.
Qed.

(** X8.  In auto-detect mode a request for a service that is not
    registered, that has no [TokenHandler], or whose [TokenHandler]
    yields no query, ends there: the handler returns, no store is
    queried, no handler is invoked and no response is written; the only
    trace is the log line of a [TokenHandler] error. *)
Theorem auto_detect_no_action (r : HookRequest) (st : Store) (t : list Event) :
  autoMode r →
  NoAction env r (world st) t →
  ∃ st', serviceHookHandler env r st = (Return, st', t).
Proof.
  intros Hmode Hno. rewrite serviceHookHandler_auto by done.
  unfold autoDetect.
  destruct Hno as [Hs|s Hs Hth|s th queryChat err c' w' Hs Hth Hcall];
    rewrite Hs; proc.
  - by eexists.
  - rewrite Hth. by eexists.
  - rewrite Hth. proc. rewrite Hcall. proc.
    destruct err; simpl; by eexists.
Qed.

Lemma FanRun_calls_exact {X} (arg : X → Context) ft token name xs h h' t :
  FanRun (λ x a, a = arg x) ft token name xs h (Completed h') t →
  calls t = (λ x, (name, arg x)) <$> xs.
Proof.
  intros Hrun. apply FanRun_completed in Hrun as (HF & _).
  induction HF as [|x [n a] xs cs [Hn Ha] _ IH]; [done|].
  simpl in Hn, Ha. rewrite fmap_cons. by rewrite Hn, Ha, IH.
Qed.

Lemma autoChats_ctx s name token wctx chats st f st' t :
  autoChats env s name token wctx chats st = (f, st', t) → ctx st' = ctx st.
Proof.
  revert st f st' t. induction chats as [|c rest IH]; intros st f st' t Hrun.
  - proc. by inversion Hrun.
  - proc. destruct (WebhookHandler s) as [hd|]; proc.
    + destruct (hd wctx _ _) as [[err c'] w'] eqn:Hhd; proc.
      destruct err as [[|msg]|]; proc.
      * by inversion Hrun.
      * destruct (autoChats env s name token wctx rest _) as [[f1 s1] t1] eqn:E.
        apply IH in E. inversion Hrun; subst. done.
      * destruct (autoChats env s name token wctx rest _) as [[f1 s1] t1] eqn:E.
        apply IH in E. inversion Hrun; subst. done.
    + by inversion Hrun.
Qed.

Lemma autoUsers_ctx s name token wctx users st f st' t :
  autoUsers env s name token wctx users st = (f, st', t) → ctx st' = ctx st.
Proof.
  revert st f st' t. induction users as [|c rest IH]; intros st f st' t Hrun.
  - proc. by inversion Hrun.
  - proc. destruct (WebhookHandler s) as [hd|]; proc.
    + destruct (hd wctx _ _) as [[err c'] w'] eqn:Hhd; proc.
      destruct err as [[|msg]|]; proc.
      * by inversion Hrun.
      * destruct (autoUsers env s name token wctx rest _) as [[f1 s1] t1] eqn:E.
        apply IH in E. inversion Hrun; subst. done.
      * destruct (autoUsers env s name token wctx rest _) as [[f1 s1] t1] eqn:E.
        apply IH in E. inversion Hrun; subst. done.
    + by inversion Hrun.
Qed.

Lemma FanRun_calls_prefix {X} (arg : X → Context) ft token name xs h o t :
  FanRun (λ x a, a = arg x) ft token name xs h o t →
  calls t `prefix_of` ((λ x, (name, arg x)) <$> xs).
Proof.
  induction 1 as [h|x xs h a o t Ha _ IH|x xs h a msg o t Ha _ IH|x xs h a Ha|x xs h];
    unfold calls; simpl; try rewrite Ha.
  - done.
  - by apply prefix_cons.
  - by apply prefix_cons.
  - apply prefix_cons, prefix_nil.
  - apply prefix_nil.
Qed.

Lemma FanRun_copies {X A} (arg : X → Context) ft token name xs h
    (g : A → bool) (f : Flow A) t :
  FanRun (λ x a, a = arg x) ft token name xs h (outcomeOf g f) t →
  calls t `prefix_of` ((λ x, (name, arg x)) <$> xs)
  ∧ (quiet t → f ≠ Panic →
     (∃ a, f = Next a)
     ∧ calls t = (λ x, (name, arg x)) <$> xs
     ∧ Forall (λ e, isRespond e = false) t).
Proof.
  intros Hrun. split; [by eapply FanRun_calls_prefix|].
  intros Hq Hp.
  destruct (FanRun_runs_on _ _ _ _ _ _ _ _ Hrun Hq) as [h' Ho].
  { by destruct f. }
  rewrite Ho in Hrun. split; [destruct f; try done; by eexists|].
  split; [by eapply FanRun_calls_exact|].
  by destruct (FanRun_completed _ _ _ _ _ _ _ _ Hrun) as (_ & _ & ? & _).
Qed.

Lemma quiet_cons_inv e t : quiet (e :: t) → quiet t.
Proof. intros H. by inversion H. Qed.

(** X9.  In auto-detect mode with a query, every [WebhookHandler]
    invocation is handed a copy of the context as the [TokenHandler]
    left it, aimed at one record found, in the order found; what a
    handler writes to its copy reaches neither the next handler nor the
    request's own context.  When no invocation returns the flood
    sentinel and nothing panics, every record found is served and no
    response is written. *)
Theorem auto_detect_hands_copies (r : HookRequest) (st : Store)
    (s : Service) (queryChat : bool) (q : bsonM) (err : goerr)
    (c' : Context) (w' : World) (f : Flow unit) (st' : Store) (t : list Event) :
  autoMode r →
  tokenHandled env r (world st) s queryChat q err c' w' →
  serviceHookHandler env r st = (f, st', t) →
  let copies :=
    if queryChat then
      (λ chat, (req_service r, withChat (cd_Chat chat) c'))
        <$> (FindChats env q w').1
    else
      (λ user, (req_service r,
                withChat (mkChat (User_ID (ud_User user)))
                         (withUser (ud_User user) c')))
        <$> (FindUsers env q w').1 in
  ctx st' = c'
  ∧ calls t `prefix_of` copies
  ∧ (quiet t → f ≠ Panic →
     f = Next tt ∧ calls t = copies ∧ Forall (λ e, isRespond e = false) t).
Proof.
  intros Hmode (th & Hs & Hth & Hcall) Hrun. cbv zeta.
  rewrite serviceHookHandler_auto in Hrun by done.
  unfold autoDetect in Hrun. rewrite Hs in Hrun. proc. rewrite Hth in Hrun.
  proc. rewrite Hcall in Hrun. proc.
  destruct queryChat.
  - destruct err as [e1|]; simpl in Hrun;
      destruct (FindChats env q w') as [chats [e2|]] eqn:Ef; simpl in Hrun;
      destruct (autoChats env s (req_service r) (req_param r) _ chats _)
        as [[f1 s4] t3] eqn:E;
      pose proof (autoChats_ctx _ _ _ _ _ _ _ _ _ E) as Hctx;
      apply autoChats_FanRun with (h := false) in E as [g E];
      apply FanRun_copies in E as [E1 E2]; simpl in *;
      (split; [destruct f1; inversion Hrun; by subst|]);
      (split; [destruct f1; inversion Hrun; by subst|]);
      intros Hq Hp;
      (destruct E2 as ([[] ->] & E2 & E3);
       [destruct f1; inversion Hrun; subst; unfold quiet in *;
        repeat match goal with
               | H : Forall _ (_ :: _) |- _ => apply Forall_cons in H as [_ H]
               end; done
       |destruct f1; inversion Hrun; by subst|]);
      inversion Hrun; subst; repeat split; try done; by repeat constructor.
  - destruct err as [e1|]; simpl in Hrun;
      destruct (FindUsers env q w') as [users [e2|]] eqn:Ef; simpl in Hrun;
      destruct (autoUsers env s (req_service r) (req_param r) _ users _)
        as [[f1 s4] t3] eqn:E;
      pose proof (autoUsers_ctx _ _ _ _ _ _ _ _ _ E) as Hctx;
      apply autoUsers_FanRun with (h := false) in E as [g E];
      apply FanRun_copies in E as [E1 E2]; simpl in *;
      (split; [destruct f1; inversion Hrun; by subst|]);
      (split; [destruct f1; inversion Hrun; by subst|]);
      intros Hq Hp;
      (destruct E2 as ([[] ->] & E2 & E3);
       [destruct f1; inversion Hrun; subst; unfold quiet in *;
        repeat match goal with
               | H : Forall _ (_ :: _) |- _ => apply Forall_cons in H as [_ H]
               end; done
       |destruct f1; inversion Hrun; by subst|]);
      inversion Hrun; subst; repeat split; try done; by repeat constructor.
Qed.
End AutoDetect.

(** ** [TriggerEventHandler] *)

Section Events.
Context {World : Type} (env : @Env World).

Lemma trigger_run (s : @Service World) h data (st : @Store World) :
  ∃ st' t,
    trigger s h data st = (Next tt, st', t)
    ∧ triggers t = [(Name s, ctx st)].
Proof.
  unfold trigger. proc.
  destruct (h data (ctx st) (world st)) as [[[e|] c'] w']; simpl;
    by eexists _, _.
Qed.

Lemma triggers_app (t1 t2 : list Event) :
  triggers (t1 ++ t2) = triggers t1 ++ triggers t2.
Proof. apply omap_app. Qed.

Lemma eventChats_run (s : @Service World) h data chats (st : @Store World) :
  ∃ st' t,
    eventChats s h data chats st = (Next tt, st', t)
    ∧ Forall2 (λ chat na, na.1 = Name s ∧ CtxChat na.2 = cd_Chat chat)
              chats (triggers t).
Proof.
  revert st. induction chats as [|chat rest IH]; intros st.
  - exists st, []. split; [done|constructor].
  - simpl. unfold mbind at 1 2, Proc_bind, modifyCtx at 1. simpl.
    destruct (trigger_run s h data (mkStore (withChat (cd_Chat chat) (ctx st)) (world st)))
      as (st1 & t1 & -> & Ht1).
    destruct (IH st1) as (st2 & t2 & -> & Hall).
    eexists _, _. split; [reflexivity|].
    rewrite triggers_app, Ht1. by constructor.
Qed.

Lemma eventUsers_run (s : @Service World) h data users (st : @Store World) :
  ∃ st' t,
    eventUsers s h data users st = (Next tt, st', t)
    ∧ Forall2 (λ user na, na.1 = Name s
                          ∧ CtxUser na.2 = ud_User user
                          ∧ CtxChat na.2 = mkChat (User_ID (ud_User user)))
              users (triggers t).
Proof.
  revert st. induction users as [|user rest IH]; intros st.
  - exists st, []. split; [done|constructor].
  - simpl. unfold mbind at 1 2 3, Proc_bind, modifyCtx at 1 2. simpl.
    destruct (trigger_run s h data
                (mkStore (withChat (mkChat (User_ID (ud_User user)))
                            (withUser (ud_User user) (ctx st))) (world st)))
      as (st1 & t1 & -> & Ht1).
    destruct (IH st1) as (st2 & t2 & -> & Hall).
    eexists _, _. split; [reflexivity|].
    rewrite triggers_app, Ht1. by constructor.
Qed.

Lemma triggers_none (lg : list Event) :
  Forall (λ e, triggerOf e = None) lg → triggers lg = [].
Proof.
  induction 1 as [|e lg He _ IH]; [done|].
  unfold triggers in *. simpl. by rewrite He.
Qed.

(** Lines 226-265 as one equation: the session is cloned, the store is
    searched, and the loop runs on a fresh context that carries the
    service name. *)
Lemma TriggerEventHandler_query (s : Service)
    (h : string → Plugin goerr) (queryChat : bool) (q : bsonM) (data : string)
    (st : Store) :
  EventHandler s = Some h →
  ∃ lg,
    Forall (λ e, triggerOf e = None) lg
    ∧ TriggerEventHandler env s queryChat (Some q) data st =
        let st0 := mkStore (withServiceName (Name s) newContext) (world st) in
        let '(f, st', t) :=
          if queryChat
          then eventChats s h data (FindChats env q (world st)).1 st0
          else eventUsers s h data (FindUsers env q (world st)).1 st0 in
        (match f with
         | Next _ => Next None
         | Return => Return
         | Panic => Panic
         end, st', lg ++ t).
Proof.
  intros Hh. unfold TriggerEventHandler. rewrite Hh.
  destruct queryChat.
  - proc. destruct (FindChats env q (world st)) as [chats err]. simpl.
    destruct err as [e|]; simpl;
      destruct (eventChats s h data chats _) as [[[[]| |] st2] t2]; simpl;
      rewrite ?app_nil_r;
      first [ by exists [CloneSession; Query Cchats q;
                         Log SvcLog LError [] (Some e) "FindChats error"];
                 split; [repeat constructor|]
            | by exists [CloneSession; Query Cchats q];
                 split; [repeat constructor|] ].
  - proc. destruct (FindUsers env q (world st)) as [users err]. simpl.
    destruct err as [e|]; simpl;
      destruct (eventUsers s h data users _) as [[[[]| |] st2] t2]; simpl;
      rewrite ?app_nil_r;
      first [ by exists [CloneSession; Query Cusers q;
                         Log SvcLog LError [] (Some e) "findUsers error"];
                 split; [repeat constructor|]
            | by exists [CloneSession; Query Cusers q];
                 split; [repeat constructor|] ].
Qed.

(** X10.  [TriggerEventHandler] returns an error in one case only: the
    service has no [EventHandler], and then nothing is touched.  In
    every other case it returns nil: an error of the store or of an
    [EventHandler] invocation never reaches the caller. *)
Theorem TriggerEventHandler_result (s : Service) (queryChat : bool)
    (bsonQuery : option bsonM) (data : string) (st : Store) :
  ∃ res st' t,
    TriggerEventHandler env s queryChat bsonQuery data st = (Next res, st', t)
    ∧ (is_Some res ↔ EventHandler s = None)
    ∧ (EventHandler s = None → st' = st ∧ t = []).
Proof.
  destruct (EventHandler s) as [h|] eqn:Hh.
  - destruct bsonQuery as [q|].
    + destruct (TriggerEventHandler_query s h queryChat q data st Hh)
        as (lg & _ & ->). cbv zeta.
      destruct queryChat.
      * destruct (eventChats_run s h data (FindChats env q (world st)).1
                    (mkStore (withServiceName (Name s) newContext) (world st)))
          as (st' & t & -> & _).
        eexists _, _, _. split; [done|]. split; [|done].
        split; [by intros [? ?]|done].
      * destruct (eventUsers_run s h data (FindUsers env q (world st)).1
                    (mkStore (withServiceName (Name s) newContext) (world st)))
          as (st' & t & -> & _).
        eexists _, _, _. split; [done|]. split; [|done].
        split; [by intros [? ?]|done].
    + unfold TriggerEventHandler. rewrite Hh. eexists _, _, _.
      split; [done|]. split; [|done]. split; [by intros [? ?]|done].
  - unfold TriggerEventHandler. rewrite Hh. eexists _, _, _.
    split; [done|]. split; [|done]. split; [done|by eexists].
Qed.

(** X11.  With an [EventHandler] and a query, [TriggerEventHandler]
    invokes the handler once for every record the store finds, in the
    order found, whatever the earlier invocations returned: for a chat
    with [ctx.Chat] set to it, for a user with [ctx.User] set to the
    user and [ctx.Chat] to the user's own chat.  It returns nil. *)
Theorem TriggerEventHandler_once_per_match (s : Service)
    (h : string → Plugin goerr) (queryChat : bool) (q : bsonM) (data : string)
    (st : Store) :
  EventHandler s = Some h →
  ∃ st' t,
    TriggerEventHandler env s queryChat (Some q) data st = (Next None, st', t)
    ∧ if queryChat then
        Forall2 (λ chat na, na.1 = Name s ∧ CtxChat na.2 = cd_Chat chat)
                (FindChats env q (world st)).1 (triggers t)
      else
        Forall2 (λ user na, na.1 = Name s
                            ∧ CtxUser na.2 = ud_User user
                            ∧ CtxChat na.2 = mkChat (User_ID (ud_User user)))
                (FindUsers env q (world st)).1 (triggers t).
Proof.
  intros Hh.
  destruct (TriggerEventHandler_query s h queryChat q data st Hh)
    as (lg & Hlg & ->). cbv zeta.
  apply triggers_none in Hlg.
  destruct queryChat.
  - destruct (eventChats_run s h data (FindChats env q (world st)).1
                (mkStore (withServiceName (Name s) newContext) (world st)))
      as (st' & t & -> & Hall).
    eexists _, _. split; [done|]. by rewrite triggers_app, Hlg.
  - destruct (eventUsers_run s h data (FindUsers env q (world st)).1
                (mkStore (withServiceName (Name s) newContext) (world st)))
      as (st' & t & -> & Hall).
    eexists _, _. split; [done|]. by rewrite triggers_app, Hlg.
Qed.

End Events.

(** ** The OAuth callback: responses and saves *)

Ltac plain_steps :=
  repeat first
    [ apply Forall_cons; split; [done|]
    | apply Forall_nil_2
    | apply Forall_app; split ].

Section Callback.
Context {World : Type} (env : @Env World).

Lemma obtainToken_plain s r val st f st' t :
  obtainToken env s r val st = (f, st', t) → plain t.
Proof.
  unfold obtainToken. intros Hrun.
  destruct (DefaultOAuth2 s) as [o2|].
  - destruct (AccessTokenReceiver2 o2) as [receiver|]; proc.
    + destruct (receiver r _ _) as [[[[[at' ex] rt] err] c'] w'].
      inversion Hrun; subst. constructor.
    + destruct (form_code r =? "")%string; proc.
      * inversion Hrun; subst. by repeat constructor.
      * destruct (Exchange env _ _ _) as [[[otoken err] c'] w']. simpl in Hrun.
        destruct otoken; inversion Hrun; subst; by repeat constructor.
  - destruct (DefaultOAuth1 s) as [o1|]; proc.
    + destruct (AccessTokenReceiver1 o1) as [receiver|]; proc.
      * destruct (receiver r _ _ _) as [[[at' err] c'] w'].
        inversion Hrun; subst. constructor.
      * inversion Hrun; subst. constructor.
    + inversion Hrun; subst. constructor.
Qed.

Lemma storeCredentials_shape s accessToken refreshToken expiresAt st f st' t :
  storeCredentials env s accessToken refreshToken expiresAt st = (f, st', t) →
  (f = Panic ∧ plain t)
  ∨ (f = Next tt ∧ ∃ pre ps res mid old,
       t = pre ++ SaveProtected (ctx st) ps res :: mid
               ++ [Respond 302 ("https://telegram.me/" +:+ Username (Service_Bot env s))]
       ∧ plain pre ∧ plain mid
       ∧ (protectedSettings env (ctx st) (world st)).1 = Some old
       ∧ ps = mkProtected accessToken
                (if (refreshToken =? "")%string then OAuthRefreshToken old
                 else refreshToken)
                (match expiresAt with
                 | Some e => Some e
                 | None => OAuthExpireDate old
                 end)).
Proof.
  unfold storeCredentials. intros Hrun. proc.
  destruct (protectedSettings env (ctx st) (world st)) as [[ps0|] err0];
    destruct err0 as [e0|]; simpl in Hrun;
    try (left; inversion Hrun; subst; split; [done|by repeat constructor]).
  - right.
    destruct (saveProtectedSettings env _ _ _) as [[e1|] w'] eqn:Es;
      destruct (OAuthSuccessful s); simpl in Hrun; inversion Hrun; subst;
      (split; [done|]).
    + eexists [_], _, _, [_; _], _. simpl. repeat split; by repeat constructor.
    + eexists [_], _, _, [_], _. simpl. repeat split; by repeat constructor.
    + eexists [_], _, _, [_], _. simpl. repeat split; by repeat constructor.
    + eexists [_], _, _, [], _. simpl. repeat split; by repeat constructor.
  - right.
    destruct (saveProtectedSettings env _ _ _) as [[e1|] w'] eqn:Es;
      destruct (OAuthSuccessful s); simpl in Hrun; inversion Hrun; subst;
      (split; [done|]).
    + eexists [], _, _, [_; _], _. simpl. repeat split; by repeat constructor.
    + eexists [], _, _, [_], _. simpl. repeat split; by repeat constructor.
    + eexists [], _, _, [_], _. simpl. repeat split; by repeat constructor.
    + eexists [], _, _, [], _. simpl. repeat split; by repeat constructor.
Qed.

Lemma oAuthCallback_shape r st f st' t :
  oAuthCallback env r st = (f, st', t) → CallbackRun env f t.
Proof.
  unfold oAuthCallback, Context_Service. intros Hrun. proc.
  destruct (FindAuthCache env _ _) as [val err].
  destruct (negb (isNil err && (0 <? UserID val)%Z)); simpl in Hrun.
  { inversion Hrun; subst. apply (Refused _ [_; _]); [by repeat constructor|by left]. }
  destruct (findOauthProviderByID env (oa_param r) (world st)) as [oap [e1|]];
    simpl in Hrun.
  { inversion Hrun; subst. apply (Refused _ [_; _]); [by repeat constructor|by right]. }
  destruct (FindUser env _ _) as [found err2]. simpl in Hrun.
  destruct (serviceByName env (oap_Service oap)) as [s|] eqn:Hs; simpl in Hrun.
  2:{ inversion Hrun; subst. apply Faulted. by repeat constructor. }
  destruct (obtainToken env s r val _) as [[f1 s1] t1] eqn:E1.
  pose proof (obtainToken_plain _ _ _ _ _ _ _ E1) as Hu.
  destruct f1 as [[[[accessToken refreshToken] expiresAt] err3]| |].
  - destruct (accessToken =? "")%string eqn:Eat.
    + rewrite rejectEmptyToken_run in Hrun.
      destruct err3; inversion Hrun; subst.
      * rewrite !app_comm_cons.
        change [?a; ?b] with ([a] ++ [b]). rewrite app_assoc.
        apply Refused; [|by left]. unfold plain.
        unfold plain; plain_steps; try done.
      * apply Faulted. rewrite !app_comm_cons. unfold plain; plain_steps; try done.
    + destruct (storeCredentials env s accessToken refreshToken expiresAt s1)
        as [[f2 s2] t2] eqn:E2.
      apply String.eqb_neq in Eat.
      apply storeCredentials_shape in E2
        as [[-> Hp]|[-> (pre & ps & res & mid & old & -> & Hpre & Hmid & _ & ->)]];
        inversion Hrun; subst.
      * apply Faulted. rewrite !app_comm_cons. unfold plain; plain_steps; try done.
      * rewrite !app_comm_cons, app_assoc. apply Stored; try done.
        rewrite <- !app_comm_cons. unfold plain; plain_steps; try done.
  - inversion Hrun; subst. apply Dropped. rewrite ?app_nil_r. unfold plain; plain_steps; try done.
  - inversion Hrun; subst. apply Faulted. rewrite ?app_nil_r. unfold plain; plain_steps; try done.
Qed.

Lemma plain_lookup_respond t i s b :
  plain t → t !! i ≠ Some (Respond s b).
Proof. intros Hp Hi. eapply Forall_lookup_1 in Hp as [? _]; [|done]. done. Qed.

Lemma plain_lookup_save t i c ps res :
  plain t → t !! i ≠ Some (SaveProtected c ps res).
Proof. intros Hp Hi. eapply Forall_lookup_1 in Hp as [_ ?]; [|done]. done. Qed.

(** X12.  [oAuthCallback] writes at most one response, as its last
    event.  A 302 is written only after the credentials were saved with
    a non-empty access token, and the callback then ends normally; the
    other responses are 403 and 500, after which it returns. *)
Theorem callback_answers_once (r : OAuthRequest) (st : Store) (f : Flow unit)
    (st' : Store) (t : list Event) (i : nat) (s : Z) (b : string) :
  oAuthCallback env r st = (f, st', t) →
  t !! i = Some (Respond s b) →
  S i = length t
  ∧ ((s = 302%Z ∧ f = Next tt
      ∧ ∃ j c ps res, j < i ∧ t !! j = Some (SaveProtected c ps res)
                      ∧ OAuthToken ps ≠ "")
     ∨ ((s = 403 ∨ s = 500)%Z ∧ f = Return)).
Proof.
  intros Hrun Hi. apply oAuthCallback_shape in Hrun.
  destruct Hrun as [pre s0 b0 Hpre Hs|t Hp|t Hp|pre c ps res mid sv Hpre Hmid Hne].
  - apply lookup_app_Some in Hi as [Hi|[Hle Hi]];
      [by apply plain_lookup_respond in Hi|].
    apply list_lookup_singleton_Some in Hi as [Hz Hi]. inversion Hi; subst.
    split; [rewrite length_app; simpl; lia|]. by right.
  - by apply plain_lookup_respond in Hi.
  - by apply plain_lookup_respond in Hi.
  - apply lookup_app_Some in Hi as [Hi|[Hle Hi]];
      [by apply plain_lookup_respond in Hi|].
    destruct (i - length pre) as [|k] eqn:Hk; simpl in Hi; [discriminate|].
    apply lookup_app_Some in Hi as [Hi|[Hle2 Hi]];
      [by apply plain_lookup_respond in Hi|].
    apply list_lookup_singleton_Some in Hi as [Hz Hi]. inversion Hi; subst.
    split; [rewrite length_app; simpl; rewrite length_app; simpl; lia|].
    left. split; [done|]. split; [done|].
    exists (length pre), c, ps, res. split; [lia|]. split; [|done].
    by rewrite list_lookup_middle.
Qed.

(** X13.  Whenever [oAuthCallback] saves credentials -- whether the
    store accepts them or not -- the access token saved is not empty,
    it is the only save of the request, and the request ends normally
    with the 302 redirect as its last event. *)
Theorem saved_then_redirected (r : OAuthRequest) (st : Store) (f : Flow unit)
    (st' : Store) (t : list Event) (i : nat) (c : Context) (ps : userProtected)
    (res : goerr) :
  oAuthCallback env r st = (f, st', t) →
  t !! i = Some (SaveProtected c ps res) →
  f = Next tt
  ∧ OAuthToken ps ≠ ""
  ∧ (∃ url, last t = Some (Respond 302 url))
  ∧ ∀ j c' ps' res', t !! j = Some (SaveProtected c' ps' res') → j = i.
Proof.
  intros Hrun Hi. apply oAuthCallback_shape in Hrun.
  destruct Hrun as [pre s0 b0 Hpre Hs|t Hp|t Hp|pre c0 ps0 res0 mid sv Hpre Hmid Hne].
  - apply lookup_app_Some in Hi as [Hi|[Hle Hi]];
      [by apply plain_lookup_save in Hi|].
    by apply list_lookup_singleton_Some in Hi as [Hz Hi].
  - by apply plain_lookup_save in Hi.
  - by apply plain_lookup_save in Hi.
  - assert (∀ j c' ps' res',
              (pre ++ SaveProtected c0 ps0 res0 :: mid
                   ++ [Respond 302 ("https://telegram.me/" +:+
                                     Username (Service_Bot env sv))]) !! j
                = Some (SaveProtected c' ps' res') →
              j = length pre ∧ ps' = ps0) as Huniq.
    { intros j c' ps' res' Hj.
      apply lookup_app_Some in Hj as [Hj|[Hle Hj]];
        [by apply plain_lookup_save in Hj|].
      destruct (j - length pre) as [|k] eqn:Hk; simpl in Hj.
      - inversion Hj; subst. split; [lia|done].
      - apply lookup_app_Some in Hj as [Hj|[Hle2 Hj]];
          [by apply plain_lookup_save in Hj|].
        by apply list_lookup_singleton_Some in Hj as [Hz Hj]. }
    destruct (Huniq _ _ _ _ Hi) as [-> ->].
    split; [done|]. split; [done|]. split.
    + eexists. by rewrite app_comm_cons, !app_assoc, last_snoc.
    + intros j c' ps' res' Hj. by destruct (Huniq _ _ _ _ Hj).
Qed.


Lemma oAuthCallback_ready r st s :
  callbackReady env r st s →
  oAuthCallback env r st =
    let val := (FindAuthCache env (authKey r) (world st)).1 in
    let pre := [Query Cusers_cache (authKey r);
                Query Cusers [("_id", bsonInt (UserID val))]] in
    match obtainToken env s r val (callbackStore env r st) with
    | (Next (accessToken, refreshToken, expiresAt, err), st1, t1) =>
        let '(f, st2, t2) :=
          if (accessToken =? "")%string
          then rejectEmptyToken env (oa_param r) err st1
          else storeCredentials env s accessToken refreshToken expiresAt st1 in
        (f, st2, pre ++ t1 ++ t2)
    | (Return, st1, t1) => (Return, st1, pre ++ t1)
    | (Panic, st1, t1) => (Panic, st1, pre ++ t1)
    end.
Proof.
  intros (Herr & Hid & Hprov & Hs). unfold oAuthCallback, Context_Service.
  proc. fold (authKey r). unfold callbackStore.
  destruct (FindAuthCache env (authKey r) (world st)) as [val err].
  simpl in *. subst err. apply Z.ltb_lt in Hid. rewrite Hid. simpl.
  destruct (findOauthProviderByID env (oa_param r) (world st)) as [oap err].
  simpl in *. subst err. simpl.
  destruct (FindUser env _ _) as [found err2]. simpl. rewrite Hs. simpl.
  destruct (obtainToken env s r val _) as [[[[[[a rt] ex] e3]| |] s1] t1];
    try done.
  destruct (a =? "")%string.
  - by destruct (rejectEmptyToken env (oa_param r) e3 s1) as [[f2 s2] t2].
  - by destruct (storeCredentials env s a rt ex s1) as [[f2 s2] t2].
Qed.

(** X15.  On the default OAuth2 path (no [AccessTokenReceiver]) a
    callback without a [code] form value is dropped: one log line, no
    token exchange, nothing saved, and no response is written. *)
Theorem empty_code_dropped (r : OAuthRequest) (st : Store) (s : Service)
    (o2 : OAuth2Config) :
  callbackReady env r st s →
  DefaultOAuth2 s = Some o2 →
  AccessTokenReceiver2 o2 = None →
  form_code r = "" →
  oAuthCallback env r st =
    (Return, callbackStore env r st,
     [Query Cusers_cache (authKey r);
      Query Cusers
        [("_id", bsonInt (UserID (FindAuthCache env (authKey r) (world st)).1))];
      Log CtxLog LError [] None "OAuth2 code is empty"]).
Proof.
  intros Hready Ho2 Hrecv Hcode. rewrite (oAuthCallback_ready _ _ _ Hready).
  cbv zeta. unfold obtainToken. rewrite Ho2, Hrecv, Hcode. by proc.
Qed.



End Callback.

(** ** The further properties at work on the sample deployments *)

Lemma rangeDelete_order_irrelevant_witness :
  rangeDelete ["a"; "b"] ["a"; "gmail"] (Settings sampleUser)
  = rangeDelete ["a"; "b"] ["gmail"; "a"] (Settings sampleUser).
Proof.
  apply rangeDelete_order_irrelevant; intros k [v Hk]; simpl in Hk;
    (apply lookup_insert_Some in Hk as [[<- _]|[_ Hk]];
     [|apply lookup_insert_Some in Hk as [[<- _]|[_ Hk]];
       [|rewrite lookup_empty in Hk; discriminate Hk]]);
    repeat constructor.
Defined.

Lemma record_without_the_hook_witness :
  ∃ st',
    serviceHookHandler
      (sampleEnv (registryOf okHandler okHandler) sampleUser nowhere None)
      (mkHookRequest "unew" "" "{}" "rnd") sampleStore
    = (Next tt, st', [Query Cusers (hooksTokenQuery "unew")]).
Proof.
  apply (record_without_the_hook
           (sampleEnv (registryOf okHandler okHandler) sampleUser nowhere None)
           (mkHookRequest "unew" "" "{}" "rnd") sampleStore Cusers
           (Hooks sampleUser)).
  - apply (UserFound _ _ _ "new" sampleUser).
    + reflexivity.
    + reflexivity.
    + simpl. lia.
  - repeat constructor; discriminate.
Defined.

Lemma user_hook_without_chats_witness :
  ∃ st',
    serviceHookHandler (sampleEnv gmailRegistry sampleUser nowhere None)
      (mkHookRequest "uold" "" "{}" "rnd") sampleStore
    = (Return, st',
       [Query Cusers (hooksTokenQuery "uold");
        noTargetLog "uold"; notHandledLog "uold"; Respond 200 ""]).
Proof.
  apply (user_hook_without_chats
           (sampleEnv gmailRegistry sampleUser nowhere None)
           (mkHookRequest "uold" "" "{}" "rnd") sampleStore "old" sampleUser
           [] [sampleHook] (mkHook "uold" ["gmail"] [])).
  - reflexivity.
  - reflexivity.
  - simpl. lia.
  - reflexivity.
  - constructor.
  - reflexivity.
  - reflexivity.
Defined.

Lemma invocations_within_fan_out_witness :
  let run :=
    hookLoop (sampleEnv (registryOf failHandler floodHandler) sampleUser nowhere None)
             "utok" sampleWctx ([mkHook "uold" ["gmail"] []] ++ sampleHook :: [])
             sampleStore in
  targets run.2 `prefix_of` [("a", 10); ("a", 20); ("b", 10); ("b", 20)]%Z.
Proof.
  intros run.
  apply (invocations_within_fan_out
           (sampleEnv (registryOf failHandler floodHandler) sampleUser nowhere None)
           "utok" sampleWctx [mkHook "uold" ["gmail"] []] [] sampleHook
           sampleStore run.1.1 run.1.2 run.2).
  - repeat constructor. discriminate.
  - reflexivity.
  - reflexivity.
Defined.

Lemma at_most_one_response_witness :
  let run :=
    serviceHookHandler
      (sampleEnv (registryOf floodHandler okHandler) sampleUser nowhere None)
      sampleRequest sampleStore in
  run.1.1 = Return ∧ 4 = length run.2 ∧ (429 = 200 ∨ 429 = 404 ∨ 429 = 429)%Z.
Proof.
  intros run.
  apply (at_most_one_response
           (sampleEnv (registryOf floodHandler okHandler) sampleUser nowhere None)
           sampleRequest sampleStore run.1.1 run.1.2 run.2 3 429
           "Too many messages").
  - reflexivity.
  - reflexivity.
Defined.

Lemma other_first_character_answers_404_witness :
  serviceHookHandler
    (sampleEnv (registryOf okHandler okHandler) sampleUser nowhere None)
    (mkHookRequest "xtok" "" "{}" "rnd") sampleStore
  = (Return, sampleStore, [Respond 404 ""]).
Proof.
  eapply (other_first_character_answers_404
            (sampleEnv (registryOf okHandler okHandler) sampleUser nowhere None)
            (mkHookRequest "xtok" "" "{}" "rnd") sampleStore).
  - reflexivity.
  - left. reflexivity.
  - discriminate.
  - discriminate.
  - discriminate.
Defined.

Lemma auto_detect_no_action_witness :
  ∃ st',
    serviceHookHandler
      (sampleEnv (detectRegistry None okHandler) sampleUser sampleChat None)
      detectRequest sampleStore
    = (Return, st', []).
Proof.
  apply (auto_detect_no_action
           (sampleEnv (detectRegistry None okHandler) sampleUser sampleChat None)
           detectRequest sampleStore []).
  - split; [discriminate | left; reflexivity].
  - apply (NoQuery _ _ _ (detectService None okHandler)
             (λ _ c w, (true, None, None, c, w)) true None
             (withServiceName "github" newContext) tt).
    + reflexivity.
    + reflexivity.
    + reflexivity.
Defined.

Lemma auto_detect_hands_copies_witness :
  let run :=
    serviceHookHandler
      (sampleEnv (detectRegistry (Some []) writingHandler) sampleUser sampleChat None)
      detectRequest sampleStore in
  ctx run.1.2 = withServiceName "github" newContext
  ∧ calls run.2
      `prefix_of` [("github", withChat (mkChat (-100))
                                (withServiceName "github" newContext))].
Proof.
  intros run.
  destruct (auto_detect_hands_copies
              (sampleEnv (detectRegistry (Some []) writingHandler) sampleUser
                         sampleChat None)
              detectRequest sampleStore (detectService (Some []) writingHandler)
              true [] None (withServiceName "github" newContext) tt
              run.1.1 run.1.2 run.2) as (Hctx & Hcalls & _).
  - split; [discriminate | left; reflexivity].
  - exists (λ _ c w, (true, Some [], None, c, w)).
    split; [reflexivity|]. split; reflexivity.
  - reflexivity.
  - split; [exact Hctx | exact Hcalls].
Defined.

Lemma TriggerEventHandler_once_per_match_witness :
  ∃ st' t,
    TriggerEventHandler
      (sampleEnv (registryOf okHandler okHandler) sampleUser sampleChat None)
      eventService true (Some []) "payload" sampleStore
    = (Next None, st', t)
    ∧ Forall2 (λ chat na, na.1 = "gmail" ∧ CtxChat na.2 = cd_Chat chat)
              [sampleChat] (triggers t).
Proof.
  apply (TriggerEventHandler_once_per_match
           (sampleEnv (registryOf okHandler okHandler) sampleUser sampleChat None)
           eventService (λ _ c w, (None, c, w)) true [] "payload" sampleStore).
  reflexivity.
Defined.


Lemma callback_answers_once_witness :
  let run :=
    oAuthCallback (sampleEnv (oauthRegistry "tok" None true) sampleUser nowhere None)
                  sampleCallback sampleStore in
  5 = length run.2
  ∧ (((302 = 302)%Z ∧ run.1.1 = Next tt
      ∧ ∃ j c ps res, j < 4 ∧ run.2 !! j = Some (SaveProtected c ps res)
                      ∧ OAuthToken ps ≠ "")
     ∨ ((302 = 403 ∨ 302 = 500)%Z ∧ run.1.1 = Return)).
Proof.
  intros run.
  apply (callback_answers_once
           (sampleEnv (oauthRegistry "tok" None true) sampleUser nowhere None)
           sampleCallback sampleStore run.1.1 run.1.2 run.2 4 302
           "https://telegram.me/integram_bot").
  - reflexivity.
  - reflexivity.
Defined.

Lemma saved_then_redirected_witness :
  let run :=
    oAuthCallback
      (sampleEnv (oauthRegistry "tok" None false) sampleUser nowhere
                 (Some (errorsNew "db down")))
      sampleCallback sampleStore in
  run.1.1 = Next tt
  ∧ ∃ url, last run.2 = Some (Respond 302 url).
Proof.
  intros run.
  destruct (saved_then_redirected
              (sampleEnv (oauthRegistry "tok" None false) sampleUser nowhere
                         (Some (errorsNew "db down")))
              sampleCallback sampleStore run.1.1 run.1.2 run.2 2
              (mkContext "trello" "" (mkUser 42 "bob") (mkChat 42))
              (mkProtected "tok" "" None) (Some (errorsNew "db down")))
    as (Hf & _ & Hlast & _).
  - reflexivity.
  - reflexivity.
  - split; [exact Hf | exact Hlast].
Defined.

Lemma empty_code_dropped_witness :
  oAuthCallback (sampleEnv codeRegistry sampleUser nowhere None)
                sampleCallback sampleStore
  = (Return,
     mkStore (mkContext "trello" "" (mkUser 42 "bob") (mkChat 42)) tt,
     [Query Cusers_cache [("key", bsonString "auth_tmp123")];
      Query Cusers [("_id", bsonInt 42)];
      Log CtxLog LError [] None "OAuth2 code is empty"]).
Proof.
  apply (empty_code_dropped
           (sampleEnv codeRegistry sampleUser nowhere None)
           sampleCallback sampleStore
           (mkService "trello" None None None None (Some (mkOAuth2 None)) None)
           (mkOAuth2 None)).
  - split; [reflexivity|]. split; [simpl; lia|]. split; reflexivity.
  - reflexivity.
  - reflexivity.
  - reflexivity.
Defined.


(** ** The middlewares and the routes of [Run] *)

Section MiddlewareFacts.
Context {World : Type} (env : @Env World).

Lemma callNext_run (next : @Proc World unit) st :
  callNext next st =
    (match (next st).1.1 with
     | Panic => Panic
     | _ => Next tt
     end, (next st).1.2, (next st).2).
Proof.
  unfold callNext. by destruct (next st) as [[[[]| |] st'] t].
Qed.

(** X17.  [ginLogger] never changes what the rest of the chain does:
    the state and the trace of the rest are kept, with one log line in
    front exactly when the status read on entry is neither a 2xx nor
    404.  (In the condition of line 60, [&&] binds tighter than [||];
    as 404 is not below 200 the two readings agree.) *)
Theorem ginLogger_logs_iff (req : ginRequest) (statusCode : Z) (errors : string)
    (next : @Proc World unit) (st : @Store World) :
  ginLogger req statusCode errors next st =
    (match (next st).1.1 with
     | Panic => Panic
     | _ => Next tt
     end, (next st).1.2,
     (if decide ((200 ≤ statusCode ≤ 299)%Z ∨ statusCode = 404%Z) then []
      else [Log StdLog LError (requestFields req statusCode) None errors])
     ++ (next st).2).
Proof.
  assert ((statusCode <? 200)%Z
          || (299 <? statusCode)%Z && negb (statusCode =? 404)%Z
          = negb (bool_decide ((200 ≤ statusCode ≤ 299)%Z ∨ statusCode = 404%Z)))
    as Hcond.
  { case_bool_decide as Hok.
    - apply orb_false_iff. split; [apply Z.ltb_ge; lia|].
      destruct (299 <? statusCode)%Z eqn:E; [|done]. simpl.
      apply Z.ltb_lt in E. apply negb_false_iff, Z.eqb_eq. lia.
    - apply orb_true_iff.
      destruct (decide (statusCode < 200)%Z); [left; by apply Z.ltb_lt|].
      right. apply andb_true_iff. split; [apply Z.ltb_lt; lia|].
      apply negb_true_iff, Z.eqb_neq. lia. }
  unfold ginLogger. rewrite Hcond.
  unfold mbind, Proc_bind, emit, mret, Proc_ret.
  destruct (decide _) as [Hok|Hbad].
  - rewrite bool_decide_true by done. simpl. by rewrite callNext_run.
  - rewrite bool_decide_false by done. simpl. by rewrite callNext_run.
Qed.

(** X18.  [ginRecovery] never lets a panic through: it always ends
    normally.  When the rest of the chain does not panic, its state and
    trace are left as they are; when it panics, the trace so far is
    followed by the recovery log line and the response 500 "Oops.
    Something not good.", and by nothing else. *)
Theorem ginRecovery_recovers (req : ginRequest) (rendered : string)
    (next : @Proc World unit) (st : @Store World) :
  ginRecovery req rendered next st =
    (Next tt, (next st).1.2,
     (next st).2 ++ match (next st).1.1 with
                    | Panic => [panicLog req rendered; Respond 500 oops]
                    | _ => []
                    end).
Proof.
  unfold ginRecovery. rewrite callNext_run.
  destruct ((next st).1.1); simpl; by rewrite ?app_nil_r.
Qed.

Lemma responses_app (t1 t2 : list Event) :
  responses (t1 ++ t2) = responses t1 ++ responses t2.
Proof. apply omap_app. Qed.

Lemma responses_silent (t : list Event) : silent t → responses t = [].
Proof.
  induction 1 as [|e t He _ IH]; [done|].
  unfold responses in *. simpl. by destruct e.
Qed.

Lemma served_run (req : ginRequest) (statusCode : Z) (errors rendered : string)
    (handler : @Proc World unit) (st : @Store World) :
  ∃ lg,
    silent lg
    ∧ served req statusCode errors rendered handler st =
        (Next tt, (handler st).1.2,
         lg ++ (handler st).2
            ++ match (handler st).1.1 with
               | Panic => [panicLog req rendered; Respond 500 oops]
               | _ => []
               end).
Proof.
  unfold served, cloneMiddleware, ginRecovery, ginLogger, callNext.
  unfold mbind, Proc_bind, emit, mret, Proc_ret.
  destruct ((statusCode <? 200)%Z
            || (299 <? statusCode)%Z && negb (statusCode =? 404)%Z).
  - exists [CloneSession;
            Log StdLog LError (requestFields req statusCode) None errors].
    split; [by repeat constructor|].
    destruct (handler st) as [[[[]| |] st'] t]; simpl; by rewrite ?app_nil_r.
  - exists [CloneSession]. split; [by repeat constructor|].
    destruct (handler st) as [[[[]| |] st'] t]; simpl; by rewrite ?app_nil_r.
Qed.

Lemma AnswersLast_responses {A} codes (f : Flow A) t :
  AnswersLast codes f t →
  length (responses t) ≤ 1 ∧ (f ≠ Return → responses t = []).
Proof.
  revert f. induction t as [|e t IH] using rev_ind; intros f Ha;
    [split; [simpl; lia|done]|].
  assert (silent t) as Hs.
  { apply Forall_lookup_2. intros i x Hi.
    destruct x; try done. exfalso.
    destruct (Ha i status body) as (_ & Hlen & _).
    { by rewrite lookup_app_l by (by eapply lookup_lt_Some). }
    apply lookup_lt_Some in Hi. rewrite length_app in Hlen. simpl in Hlen. lia. }
  rewrite responses_app, (responses_silent _ Hs). simpl.
  destruct e; simpl; try (split; [lia|done]).
  split; [lia|]. intros Hf. exfalso. apply Hf.
  destruct (Ha (length t) status body) as (? & _); [|done].
  by rewrite list_lookup_middle.
Qed.

(** X19.  A hook request served through the middlewares of [Run] never
    faults and gets at most one response: the one [serviceHookHandler]
    wrote, or -- exactly when the handler panicked, as it does on an
    empty token or a missing [WebhookHandler] -- the 500 of the
    recovery, in which case the handler itself had written none. *)
Theorem served_hook_answers_once (req : ginRequest) (statusCode : Z)
    (errors rendered : string) (r : HookRequest) (st : Store) :
  ∃ st' t,
    served req statusCode errors rendered (serviceHookHandler env r) st
      = (Next tt, st', t)
    ∧ length (responses t) ≤ 1
    ∧ ((serviceHookHandler env r st).1.1 = Panic → responses t = [(500%Z, oops)])
    ∧ ((serviceHookHandler env r st).1.1 ≠ Panic →
       responses t = responses (serviceHookHandler env r st).2).
Proof.
  destruct (served_run req statusCode errors rendered (serviceHookHandler env r) st)
    as (lg & Hlg & ->).
  eexists _, _. split; [done|].
  destruct (serviceHookHandler env r st) as [[f st'] t] eqn:Hrun. simpl.
  apply serviceHookHandler_answers, AnswersLast_responses in Hrun as [Hlen Hnone].
  rewrite !responses_app, (responses_silent _ Hlg). simpl.
  destruct f as [[]| |]; simpl; rewrite ?app_nil_r.
  - repeat split; done.
  - repeat split; done.
  - rewrite Hnone by done. repeat split; first [done | simpl; lia].
Qed.

Lemma CallbackRun_responses f t :
  CallbackRun env f t →
  length (responses t) ≤ 1 ∧ (f = Panic → responses t = []).
Proof.
  assert (∀ l, plain l → responses l = []) as Hplain.
  { intros l Hl. apply responses_silent. eapply Forall_impl; [done|].
    by intros e [? _]. }
  destruct 1 as [pre s b Hpre Hs|t Hp|t Hp|pre c ps res mid sv Hpre Hmid Hne].
  - rewrite responses_app, (Hplain _ Hpre). simpl. split; [lia|done].
  - rewrite (Hplain _ Hp). simpl. split; [lia|done].
  - rewrite (Hplain _ Hp). simpl. split; [lia|done].
  - rewrite responses_app, (Hplain _ Hpre). simpl.
    unfold responses at 1. simpl. fold (responses (mid ++ [Respond 302
      ("https://telegram.me/" +:+ Username (Service_Bot env sv))])).
    rewrite responses_app, (Hplain _ Hmid). simpl. split; [lia|done].
Qed.

(** X20.  The same for the OAuth callback: served through the
    middlewares of [Run] it never faults and gets at most one response,
    which is the 500 of the recovery exactly when [oAuthCallback]
    panicked (an unregistered service, a nil error with an empty access
    token, nil protected settings). *)
Theorem served_callback_answers_once (req : ginRequest) (statusCode : Z)
    (errors rendered : string) (r : OAuthRequest) (st : Store) :
  ∃ st' t,
    served req statusCode errors rendered (oAuthCallback env r) st
      = (Next tt, st', t)
    ∧ length (responses t) ≤ 1
    ∧ ((oAuthCallback env r st).1.1 = Panic → responses t = [(500%Z, oops)])
    ∧ ((oAuthCallback env r st).1.1 ≠ Panic →
       responses t = responses (oAuthCallback env r st).2).
Proof.
  destruct (served_run req statusCode errors rendered (oAuthCallback env r) st)
    as (lg & Hlg & ->).
  eexists _, _. split; [done|].
  destruct (oAuthCallback env r st) as [[f st'] t] eqn:Hrun. simpl.
  apply oAuthCallback_shape, CallbackRun_responses in Hrun as [Hlen Hnone].
  rewrite !responses_app, (responses_silent _ Hlg). simpl.
  destruct f as [[]| |]; simpl; rewrite ?app_nil_r.
  - repeat split; done.
  - repeat split; done.
  - rewrite Hnone by done. repeat split; first [done | simpl; lia].
Qed.


Lemma goSlice_second (a b : Ascii.ascii) (rest : string) (st : @Store World) :
  goSlice (String a (String b rest)) 1 2 st = (Next (String b ""), st, []).
Proof. unfold goSlice. simpl. by destruct rest. Qed.

Lemma secondIs_run (a b : Ascii.ascii) (rest x : string) (st : @Store World) :
  secondIs (String a (String b rest)) x st
  = (Next (String b "" =? x)%string, st, []).
Proof.
  unfold secondIs, mbind, Proc_bind. by rewrite goSlice_second.
Qed.

(** X21.  The handler of unmatched routes never faults, whatever the
    request URI -- the length test of line 141 guards the slice
    [RequestURI[1:2]] -- and it leaves the state alone.  It answers 404
    with the hint text exactly when the URI is longer than 10 bytes and
    its second byte is [c], [u] or [h]; otherwise it writes nothing. *)
Theorem noRoute_guarded (uri : string) (st : @Store World) :
  ∃ t,
    noRoute uri st = (Next tt, st, t)
    ∧ (t = [] ∨ t = [Respond 404 notWorking])
    ∧ (t ≠ [] ↔
       10 < String.length uri
       ∧ ∃ a b rest, uri = String a (String b rest)
                     ∧ (String b "" = "c" ∨ String b "" = "u" ∨ String b "" = "h")).
Proof.
  unfold noRoute. destruct (10 <? String.length uri) eqn:Hlen.
  - apply Nat.ltb_lt in Hlen.
    destruct uri as [|a [|b rest]]; [simpl in Hlen; lia..|].
    unfold mbind, Proc_bind. rewrite secondIs_run.
    destruct (String b "" =? "c")%string eqn:Ec.
    { apply String.eqb_eq in Ec. eexists. split; [reflexivity|].
      split; [by right|]. split; [|done]. intros _. split; [done|].
      exists a, b, rest. auto. }
    rewrite secondIs_run.
    destruct (String b "" =? "u")%string eqn:Eu.
    { apply String.eqb_eq in Eu. eexists. split; [reflexivity|].
      split; [by right|]. split; [|done]. intros _. split; [done|].
      exists a, b, rest. auto. }
    rewrite secondIs_run.
    destruct (String b "" =? "h")%string eqn:Eh.
    { apply String.eqb_eq in Eh. eexists. split; [reflexivity|].
      split; [by right|]. split; [|done]. intros _. split; [done|].
      exists a, b, rest. auto. }
    eexists. split; [reflexivity|]. split; [by left|]. split; [done|].
    intros (_ & a' & b' & rest' & Heq & Hb). inversion Heq; subst.
    apply String.eqb_neq in Ec, Eu, Eh. by destruct Hb as [?|[?|?]].
  - apply Nat.ltb_ge in Hlen. eexists. split; [reflexivity|].
    split; [by left|]. split; [done|]. intros [? _]. lia.
Qed.

End MiddlewareFacts.

(** ** [webPreviewHandler] *)

Lemma String_prefix_app (a b : string) : String.prefix a (a +:+ b) = true.
Proof.
  induction a as [|x a IH]; simpl; [by destruct b|].
  destruct (Ascii.ascii_dec x x); [done|done].
Qed.

Lemma String_prefix_split (a s : string) :
  String.prefix a s = true → ∃ post, s = a +:+ post.
Proof.
  revert s. induction a as [|x a IH]; intros s H.
  - by exists s.
  - destruct s as [|y s]; simpl in H; [done|].
    destruct (Ascii.ascii_dec x y) as [->|]; [|done].
    destruct (IH _ H) as [post ->]. by exists post.
Qed.

Lemma strings_Contains_spec (s substr : string) :
  strings_Contains s substr = true ↔ ∃ pre post, s = pre +:+ substr +:+ post.
Proof.
  split.
  - induction s as [|x s IH]; intros H.
    + destruct substr; [|done]. by exists "", "".
    + change (String.prefix substr (String x s) || strings_Contains s substr = true)
        in H.
      apply orb_true_iff in H as [H|H].
      * apply String_prefix_split in H as [post Hs]. exists "", post.
        by rewrite Hs.
      * destruct (IH H) as (pre & post & ->). by exists (String x pre), post.
  - intros (pre & post & ->). induction pre as [|x pre IH].
    + change ("" +:+ substr +:+ post) with (substr +:+ post).
      destruct (substr +:+ post) eqn:E; unfold strings_Contains;
        fold strings_Contains; by rewrite <- E, String_prefix_app.
    + change (String x pre +:+ substr +:+ post)
        with (String x (pre +:+ substr +:+ post)).
      unfold strings_Contains; fold strings_Contains.
      by rewrite IH, orb_true_r.
Qed.

(** X22.  [webPreviewHandler] counts and redirects browsers only.  For
    a user agent that contains "TelegramBot" no counter is touched and
    no redirect is sent: the last two events are the debug line and the
    page rendered with status 200, whose title, headline and text are
    the stored ones and whose text and image are never both empty (the
    placeholder image stands in).  For any other user agent no page is
    rendered: the last two events are the counter update and the 301 to
    the stored URL. *)
Theorem preview_counts_browsers_only (find : string → webPreview * goerr)
    (param userAgent : string) :
  let wp := (find param).1 in
  let t := webPreviewHandler find param userAgent in
  if strings_Contains userAgent "TelegramBot" then
    Forall (λ e, isCounted e = false) t
    ∧ ∃ pre p,
        t = pre ++ [DebugWP p; RenderPreview 200 "webpreview.tmpl" p]
        ∧ Forall (λ e, isRendered e = false) pre
        ∧ page_title p = wp_Title wp ∧ page_headline p = wp_Headline wp
        ∧ page_text p = wp_Text wp
        ∧ (page_text p ≠ "" ∨ page_imageURL p ≠ "")
        ∧ (wp_ImageURL wp ≠ "" → page_imageURL p = wp_ImageURL wp)
  else
    Forall (λ e, isRendered e = false) t
    ∧ ∃ pre,
        t = pre ++ [IncRedirects (wp_Token wp); Redirect 301 (wp_URL wp)]
        ∧ Forall (λ e, isCounted e = false) pre.
Proof.
  unfold webPreviewHandler. destruct (find param) as [wp err]. simpl.
  destruct (strings_Contains userAgent "TelegramBot"); simpl.
  - split; [destruct err; by repeat constructor|].
    eexists (FindPreview param :: match err with
                                  | Some _ => [AbortWithError 404 "Not found"]
                                  | None => []
                                  end), _.
    split; [reflexivity|]. split; [destruct err; by repeat constructor|].
    simpl. repeat split.
    + destruct (wp_Text wp =? "")%string eqn:Et; simpl.
      * right. by destruct (wp_ImageURL wp =? "")%string eqn:Ei;
                 [|apply String.eqb_neq in Ei].
      * left. by apply String.eqb_neq.
    + intros Hne. apply String.eqb_neq in Hne. rewrite Hne.
      by rewrite andb_false_r.
  - split; [destruct err; by repeat constructor|].
    eexists (FindPreview param :: match err with
                                  | Some _ => [AbortWithError 404 "Not found"]
                                  | None => []
                                  end).
    split; [reflexivity|]. destruct err; by repeat constructor.
Qed.

(** X23.  A failed lookup does not stop [webPreviewHandler]: there is
    no [return] after the 404 of line 175, so the handler goes on
    exactly as if the lookup had succeeded with the record left in
    [wp] -- a browser is still counted and redirected, a bot still gets
    a page. *)
Theorem missing_preview_not_stopped (find : string → webPreview * goerr)
    (param userAgent : string) :
  (find param).2 ≠ None →
  webPreviewHandler find param userAgent
  = [FindPreview param; AbortWithError 404 "Not found"]
      ++ drop 1 (webPreviewHandler (λ id, ((find id).1, None)) param userAgent).
Proof.
  unfold webPreviewHandler. destruct (find param) as [wp [e|]]; simpl; [|done].
  intros _. done.
Qed.

(** ** [oAuthInitRedirect] *)

Section InitFacts.
Context {World : Type} (env : @Env World) (ienv : @InitEnv World).

(** X24.  The time-zone preflight: for a known correlation id, a
    request that carries [tz] only stores the time zone for the user
    and answers 200 -- whether or not the service is registered or uses
    OAuth1; the provider is not contacted and no request token is
    stored. *)
Theorem timezone_preflight (r : InitRequest) (w : World)
    (val : oAuthIDCache) :
  FindAuthCache env (initKey r) w = (val, None) →
  (0 < UserID val)%Z →
  init_tz r ≠ "" →
  oAuthInitRedirect env ienv r w
  = (Return, updateTZ ienv (UserID val) (init_tz r) w,
     [Core (Query Cusers_cache (initKey r));
      UpdateTZ (UserID val) (init_tz r);
      Core (Respond 200 "")]).
Proof.
  intros Hfind Hid Htz. unfold oAuthInitRedirect. rewrite Hfind. simpl.
  apply Z.ltb_lt in Hid. rewrite Hid. simpl.
  apply String.eqb_neq in Htz. by rewrite Htz.
Qed.

(** X25.  A request token is stored only as the provider handed it
    out: the store update comes right after a provider call that
    returned this token without an error, for the service of the
    correlation record, under the key of the request, and never on a
    [tz] request.  Whatever the update returns, the handler ends
    normally with the redirect page for the provider's URL. *)
Theorem request_token_stored_after_provider (r : InitRequest) (w : World)
    (f : Flow unit) (w' : World) (t : list InitEvent) (i : nat)
    (key : bsonM) (requestToken : string) (res : goerr) :
  oAuthInitRedirect env ienv r w = (f, w', t) →
  t !! i = Some (StoreRequestToken key requestToken res) →
  init_tz r = ""
  ∧ key = initKey r
  ∧ f = Next tt
  ∧ ∃ c callback url w1,
      t !! (i - 1) = Some (RequestTokenCall c callback)
      ∧ GetRequestTokenAndUrl ienv c callback w = (requestToken, url, None, w1)
      ∧ ServiceName c = oa_Service (FindAuthCache env (initKey r) w).1
      ∧ drop (length t - 2) t
          = [RenderRedirect 200 "oauthredirect.tmpl" url; Println "HTML"].
Proof.
  unfold oAuthInitRedirect. intros Hrun Hi.
  destruct (FindAuthCache env (initKey r) w) as [val err].
  destruct (negb (isNil err && (0 <? UserID val)%Z)).
  { inversion Hrun; subst. by destruct i as [|[|[|?]]]. }
  destruct (init_tz r =? "")%string eqn:Htz; simpl in Hrun.
  2:{ inversion Hrun; subst. by destruct i as [|[|[|?]]]. }
  apply String.eqb_eq in Htz.
  destruct (serviceByName env (oa_Service val)) as [s|].
  2:{ inversion Hrun; subst. by destruct i as [|[|?]]. }
  destruct (DefaultOAuth1 s).
  2:{ inversion Hrun; subst. by destruct i as [|[|[|?]]]. }
  destruct (url_Parse ienv (oa_BaseURL val)) as [u|].
  2:{ inversion Hrun; subst. by destruct i as [|[|[|?]]]. }
  destruct (GetRequestTokenAndUrl ienv _ _ w) as [[[tok url] [e|]] w1] eqn:Hcall.
  { inversion Hrun; subst. by destruct i as [|[|[|[|?]]]]. }
  destruct (updateRequestToken ienv (initKey r) tok w1) as [[e2|] w2];
    inversion Hrun; subst;
    destruct i as [|[|[|[|[|[|?]]]]]]; simpl in Hi; inversion Hi; subst;
    (split; [done|]); (split; [done|]); (split; [done|]);
    eexists _, _, _, _; (split; [reflexivity|]); (split; [exact Hcall|]);
    done.
Qed.

(** X26.  Every run of [oAuthInitRedirect] that does not panic writes
    exactly one answer (a response or the redirect page).  It panics
    only for a known correlation id without [tz] whose service is not
    registered, and then nothing is answered. *)
Theorem init_answers_once (r : InitRequest) (w : World)
    (f : Flow unit) (w' : World) (t : list InitEvent) :
  oAuthInitRedirect env ienv r w = (f, w', t) →
  match f with
  | Panic =>
      answers t = [] ∧ init_tz r = ""
      ∧ serviceByName env (oa_Service (FindAuthCache env (initKey r) w).1) = None
  | _ => length (answers t) = 1
  end.
Proof.
  unfold oAuthInitRedirect. intros Hrun.
  destruct (FindAuthCache env (initKey r) w) as [val err].
  destruct (negb (isNil err && (0 <? UserID val)%Z)).
  { by inversion Hrun; subst. }
  destruct (init_tz r =? "")%string eqn:Htz; simpl in Hrun.
  2:{ by inversion Hrun; subst. }
  apply String.eqb_eq in Htz.
  destruct (serviceByName env (oa_Service val)) as [s|] eqn:Hs.
  2:{ by inversion Hrun; subst. }
  destruct (DefaultOAuth1 s).
  2:{ by inversion Hrun; subst. }
  destruct (url_Parse ienv (oa_BaseURL val)) as [u|].
  2:{ by inversion Hrun; subst. }
  destruct (GetRequestTokenAndUrl ienv _ _ w) as [[[tok url] [e|]] w1] eqn:Hcall.
  { by inversion Hrun; subst. }
  by destruct (updateRequestToken ienv (initKey r) tok w1) as [[e2|] w2];
    inversion Hrun; subst.
Qed.

End InitFacts.

(** ** The other routes on the sample deployments *)

Lemma served_hook_answers_once_witness :
  responses
    (served sampleGinRequest 200 "" "slice bounds out of range"
       (serviceHookHandler
          (sampleEnv (registryOf okHandler okHandler) sampleUser nowhere None)
          (mkHookRequest "" "" "{}" "rnd")) sampleStore).2
  = [(500%Z, oops)].
Proof.
  destruct (served_hook_answers_once
              (sampleEnv (registryOf okHandler okHandler) sampleUser nowhere None)
              sampleGinRequest 200 "" "slice bounds out of range"
              (mkHookRequest "" "" "{}" "rnd") sampleStore)
    as (st' & t & Hrun & _ & Hpanic & _).
  rewrite Hrun. simpl. apply Hpanic. reflexivity.
Defined.

Lemma served_callback_answers_once_witness :
  responses
    (served sampleGinRequest 200 "" "nil pointer dereference"
       (oAuthCallback
          (sampleEnv (oauthRegistry "" None false) sampleUser nowhere None)
          sampleCallback) sampleStore).2
  = [(500%Z, oops)].
Proof.
  destruct (served_callback_answers_once
              (sampleEnv (oauthRegistry "" None false) sampleUser nowhere None)
              sampleGinRequest 200 "" "nil pointer dereference"
              sampleCallback sampleStore)
    as (st' & t & Hrun & _ & Hpanic & _).
  rewrite Hrun. simpl. apply Hpanic. reflexivity.
Defined.

Lemma missing_preview_not_stopped_witness :
  webPreviewHandler samplePreviews "gone" "Mozilla/5.0"
  = [FindPreview "gone"; AbortWithError 404 "Not found";
     IncRedirects ""; Redirect 301 ""].
Proof.
  apply (missing_preview_not_stopped samplePreviews "gone" "Mozilla/5.0").
  discriminate.
Defined.

Lemma timezone_preflight_witness :
  oAuthInitRedirect
    (sampleEnv (registryOf okHandler okHandler) sampleUser nowhere None)
    (sampleInitEnv None) (mkInitRequest "tmp123" "Europe/Berlin") tt
  = (Return, tt,
     [Core (Query Cusers_cache [("key", bsonString "auth_tmp123")]);
      UpdateTZ 42 "Europe/Berlin";
      Core (Respond 200 "")]).
Proof.
  apply (timezone_preflight
           (sampleEnv (registryOf okHandler okHandler) sampleUser nowhere None)
           (sampleInitEnv None) (mkInitRequest "tmp123" "Europe/Berlin") tt
           (mkAuthCache 42 "trello" "" "")).
  - reflexivity.
  - simpl. lia.
  - discriminate.
Defined.

Lemma request_token_stored_after_provider_witness :
  let run :=
    oAuthInitRedirect (sampleEnv oauth1Registry sampleUser nowhere None)
      (sampleInitEnv (Some (errorsNew "db down"))) (mkInitRequest "tmp123" "") tt in
  run.1.1 = Next tt
  ∧ ∃ c callback url w1,
      run.2 !! (2 - 1) = Some (RequestTokenCall c callback)
      ∧ GetRequestTokenAndUrl (sampleInitEnv (Some (errorsNew "db down")))
          c callback tt = ("reqtok", url, None, w1)
      ∧ ServiceName c = "trello"
      ∧ drop (length run.2 - 2) run.2
          = [RenderRedirect 200 "oauthredirect.tmpl" url; Println "HTML"].
Proof.
  intros run.
  destruct (request_token_stored_after_provider
              (sampleEnv oauth1Registry sampleUser nowhere None)
              (sampleInitEnv (Some (errorsNew "db down")))
              (mkInitRequest "tmp123" "") tt run.1.1 run.1.2 run.2 2
              [("key", bsonString "auth_tmp123")] "reqtok"
              (Some (errorsNew "db down")))
    as (_ & _ & Hf & Hrest).
  - reflexivity.
  - reflexivity.
  - split; [exact Hf | exact Hrest].
Defined.

Lemma init_answers_once_witness :
  length (answers
            (oAuthInitRedirect (sampleEnv codeRegistry sampleUser nowhere None)
               (sampleInitEnv None) (mkInitRequest "tmp123" "") tt).2) = 1.
Proof.
  apply (init_answers_once
           (sampleEnv codeRegistry sampleUser nowhere None) (sampleInitEnv None)
           (mkInitRequest "tmp123" "") tt Return tt
           [Core (Query Cusers_cache [("key", bsonString "auth_tmp123")]);
            Core (Respond 501 "Redirect is for OAuth1 only")]).
  reflexivity.
Defined.
